(** * AIDP: the training-loop template [tflib/model.py] and [convnet/config.py]

    A shallow embedding of the two Python 2 modules.

    - [Config] is embedded as the attribute dictionary its constructor
      fills in.
    - [BaseModel] is embedded as a record of its attributes; its methods are
      programs of a small state-and-exception monad.  Every call that leaves
      the module (TensorFlow, numpy, [os], [time], and the abstract hooks a
      subclass supplies) is recorded in a trace and answered by a [World],
      an arbitrary oracle that may return a value or raise any exception;
      a hook may also change [self] as it likes.  Exceptions arise at these
      calls, at the reading of an attribute that is not set, and at the
      modulus of the two periodic tests; an interrupt is taken at a call.
    - The step a train step reports is an integer, and [%] is the modulus of
      Python integers.
    - [_test_step] reads [self.is_correct], an attribute that only a
      subclass assigns; what it holds is a parameter of the embedding.
    - The [while] loop of [train] takes a fuel argument (the number of
      iterations observed); the outcome [Running] says that the loop has
      not left yet.

    The file has three parts: the model, the vocabulary of the statements,
    and the lemmas and theorems. *)

From Stdlib Require Import ZArith Lia Ascii String.
From stdpp Require Import base strings list gmap pretty.

Open Scope Z_scope.
Open Scope string_scope.
Open Scope list_scope.

(** ** Python values stored in plain attributes *)

(** A float is kept as the decimal literal of the source: [PyFloat m e]
    stands for [m]e[e], so [1e-3] is [PyFloat 1 (-3)]. *)
Inductive pyval :=
| PyNone
| PyInt (z : Z)
| PyFloat (mantissa exponent : Z).

#[global] Instance pyval_eq_dec : EqDecision pyval.
Proof. solve_decision. Defined.

(** ** Class declarations *)

(** A method as the [class] statement declares it: its name, its parameter
    names and whether it carries the [abc.abstractmethod] decorator. *)
Record method_decl := MethodDecl {
  m_name : string;
  m_params : list string;
  m_abstract : bool
}.

Definition abstract_methods (cls : list method_decl) : list string :=
  m_name <$> filter (fun m => m_abstract m = true) cls.

Definition concrete_methods (cls : list method_decl) : list string :=
  m_name <$> filter (fun m => m_abstract m = false) cls.

(** ** convnet/config.py *)

Module Config.

Definition methods : list method_decl :=
  [ MethodDecl "__init__" ["self"] false ].

(** [Config.__init__]: five attribute assignments on [self], in the order
    of the source. *)
Definition __init__ (self : gmap string pyval) : gmap string pyval :=
  let self := <["learning_rate" := PyFloat 1 (-3)]> self in
  let self := <["display_step" := PyInt 50]> self in
  let self := <["n_threads" := PyInt 2]> self in
  let self := <["regularization" := PyFloat 1 (-3)]> self in
  let self := <["n_epochs" := PyNone]> self in
  self.

(** [Config()]: a fresh object, then [__init__]. *)
Definition new : gmap string pyval := __init__ ∅.

End Config.

(** ** Exceptions *)

(** An exception is known by the method resolution order of its class,
    which starts with the class itself; [except C] catches the instances of
    [C] and of its subclasses. *)
Record exn := Exn { exn_mro : list string }.

#[global] Instance exn_eq_dec : EqDecision exn.
Proof. solve_decision. Defined.

Definition isinstance (e : exn) (cls : string) : bool :=
  bool_decide (cls ∈ exn_mro e).

Definition KeyboardInterrupt : exn :=
  Exn ["KeyboardInterrupt"; "BaseException"; "object"].
Definition OutOfRangeError : exn :=
  Exn ["tf.errors.OutOfRangeError"; "tf.errors.OpError"; "Exception";
       "BaseException"; "object"].
Definition TypeError : exn :=
  Exn ["TypeError"; "StandardError"; "Exception"; "BaseException"; "object"].
Definition ZeroDivisionError : exn :=
  Exn ["ZeroDivisionError"; "ArithmeticError"; "StandardError"; "Exception";
       "BaseException"; "object"].
Definition AttributeError : exn :=
  Exn ["AttributeError"; "StandardError"; "Exception"; "BaseException";
       "object"].

Definition IndexError : exn :=
  Exn ["IndexError"; "LookupError"; "StandardError"; "Exception";
       "BaseException"; "object"].
Definition ValueError : exn :=
  Exn ["ValueError"; "StandardError"; "Exception"; "BaseException"; "object"].

Inductive result (A : Type) :=
| Ret (a : A)
| Exc (e : exn).
Arguments Ret {A} a.
Arguments Exc {A} e.

(** ** Paths *)

Definition path := string.

Definition starts_with_slash (s : string) : bool :=
  match s with
  | String c _ => bool_decide (c = "/"%char)
  | EmptyString => false
  end.

Fixpoint ends_with_slash (s : string) : bool :=
  match s with
  | EmptyString => false
  | String c EmptyString => bool_decide (c = "/"%char)
  | String _ rest => ends_with_slash rest
  end.

(** [os.path.join a b] of [posixpath], for two components. *)
Definition path_join (a b : path) : path :=
  if starts_with_slash b then b
  else if bool_decide (a = "") || ends_with_slash a then a +:+ b
  else a +:+ "/" +:+ b.

(** [str(step)] for an integer. *)
Definition py_str (z : Z) : string := pretty z.

(** ** The object *)

Definition handle := nat.

(** The attributes [BaseModel] itself assigns; [None] is an attribute that
    is not set (reading it raises [AttributeError]).  The attributes a
    subclass adds belong to the subclass and live in the [World]. *)
Record BaseModel := {
  inputs : option (handle);
  checkpoint_dir : option (path);
  is_training : option (bool);
  layers : option (gmap string handle);
  summaries : option (list handle);
  eval_summaries : option (list handle);
  global_step : option (handle);
  saver : option (handle);
  merged_summaries : option (handle);
  summary_writer : option (handle)
}.

(** The object as [object.__new__] hands it to [__init__]. *)
Definition blank : BaseModel :=
  {| inputs := None; checkpoint_dir := None; is_training := None;
     layers := None; summaries := None; eval_summaries := None;
     global_step := None; saver := None; merged_summaries := None;
     summary_writer := None |}.

Definition set_inputs (v : handle) (o : BaseModel) : BaseModel :=
  {| inputs := Some v; checkpoint_dir := checkpoint_dir o;
     is_training := is_training o; layers := layers o;
     summaries := summaries o; eval_summaries := eval_summaries o;
     global_step := global_step o; saver := saver o;
     merged_summaries := merged_summaries o;
     summary_writer := summary_writer o |}.

Definition set_checkpoint_dir (v : path) (o : BaseModel) : BaseModel :=
  {| inputs := inputs o; checkpoint_dir := Some v;
     is_training := is_training o; layers := layers o;
     summaries := summaries o; eval_summaries := eval_summaries o;
     global_step := global_step o; saver := saver o;
     merged_summaries := merged_summaries o;
     summary_writer := summary_writer o |}.

Definition set_is_training (v : bool) (o : BaseModel) : BaseModel :=
  {| inputs := inputs o; checkpoint_dir := checkpoint_dir o;
     is_training := Some v; layers := layers o; summaries := summaries o;
     eval_summaries := eval_summaries o; global_step := global_step o;
     saver := saver o; merged_summaries := merged_summaries o;
     summary_writer := summary_writer o |}.

Definition set_layers (v : gmap string handle) (o : BaseModel) : BaseModel :=
  {| inputs := inputs o; checkpoint_dir := checkpoint_dir o;
     is_training := is_training o; layers := Some v;
     summaries := summaries o; eval_summaries := eval_summaries o;
     global_step := global_step o; saver := saver o;
     merged_summaries := merged_summaries o;
     summary_writer := summary_writer o |}.

Definition set_summaries (v : list handle) (o : BaseModel) : BaseModel :=
  {| inputs := inputs o; checkpoint_dir := checkpoint_dir o;
     is_training := is_training o; layers := layers o;
     summaries := Some v; eval_summaries := eval_summaries o;
     global_step := global_step o; saver := saver o;
     merged_summaries := merged_summaries o;
     summary_writer := summary_writer o |}.

Definition set_eval_summaries (v : list handle) (o : BaseModel) : BaseModel :=
  {| inputs := inputs o; checkpoint_dir := checkpoint_dir o;
     is_training := is_training o; layers := layers o;
     summaries := summaries o; eval_summaries := Some v;
     global_step := global_step o; saver := saver o;
     merged_summaries := merged_summaries o;
     summary_writer := summary_writer o |}.

Definition set_global_step (v : handle) (o : BaseModel) : BaseModel :=
  {| inputs := inputs o; checkpoint_dir := checkpoint_dir o;
     is_training := is_training o; layers := layers o;
     summaries := summaries o; eval_summaries := eval_summaries o;
     global_step := Some v; saver := saver o;
     merged_summaries := merged_summaries o;
     summary_writer := summary_writer o |}.

Definition set_saver (v : handle) (o : BaseModel) : BaseModel :=
  {| inputs := inputs o; checkpoint_dir := checkpoint_dir o;
     is_training := is_training o; layers := layers o;
     summaries := summaries o; eval_summaries := eval_summaries o;
     global_step := global_step o; saver := Some v;
     merged_summaries := merged_summaries o;
     summary_writer := summary_writer o |}.

Definition set_merged_summaries (v : handle) (o : BaseModel) : BaseModel :=
  {| inputs := inputs o; checkpoint_dir := checkpoint_dir o;
     is_training := is_training o; layers := layers o;
     summaries := summaries o; eval_summaries := eval_summaries o;
     global_step := global_step o; saver := saver o;
     merged_summaries := Some v; summary_writer := summary_writer o |}.

Definition set_summary_writer (v : handle) (o : BaseModel) : BaseModel :=
  {| inputs := inputs o; checkpoint_dir := checkpoint_dir o;
     is_training := is_training o; layers := layers o;
     summaries := summaries o; eval_summaries := eval_summaries o;
     global_step := global_step o; saver := saver o;
     merged_summaries := merged_summaries o; summary_writer := Some v |}.

(** ** Calls that leave the module *)

Inductive message :=
| MsgInitializing
| MsgLoaded (step : Z) (snapshot : option path)
| MsgStartingCoordinator
| MsgStartingOptimization
| MsgSummary (step : Z)
| MsgSavingCheckpoint (step : Z)
| MsgInterrupted (step : Z)
| MsgCompleted (step : Z)
| MsgShuttingDown
| MsgWaiting
| MsgDone.

#[global] Instance message_eq_dec : EqDecision message.
Proof. solve_decision. Defined.

Inductive call :=
(* output *)
| Print (m : message)
(* abstract hooks of the subclass *)
| Hook_setup_prediction
| Hook_setup_loss
| Hook_setup_optimizer (lr : handle)
| Hook_tofetch
| Hook_summary_step (step : Z)
(* graph construction *)
| TfVariable (initial : pyval) (name : string)
| TfSaver
| SummaryScalar (name : string) (tensor : handle)
| SummaryMerge (summaries : list handle)
(* session *)
| SessionOpen
| SessionClose (sess : handle)
| LocalVariablesInit
| GlobalVariablesInit
| SessRunGlobalStep (sess : handle)
| SessRunFetch (sess : handle)
| GlobalStepValue (sess : handle)
| TimeTime
| SetPrintoptions
(* summary writer *)
| FileWriterOpen (dir : path)
| AddSummary (writer : handle) (step : Z)
| WriterClose (writer : handle)
(* checkpoints *)
| LatestCheckpoint (dir : path)
| SaverRestore (saver sess : handle) (snapshot : option path)
| PathExists (dir : path)
| MakeDirs (dir : path)
| SaverSave (saver sess : handle) (prefix : path)
(* coordinator and data threads *)
| CoordinatorNew
| StartQueueRunners (sess coord : handle)
| ShouldStop (coord : handle)
| RequestStop (coord : handle)
| CoordJoin (coord : handle) (threads : list handle).

#[global] Instance call_eq_dec : EqDecision call.
Proof. solve_decision. Defined.

Definition trace := list call.

(** The environment.  Each oracle sees the calls made so far, the last of
    which is the call it answers, and returns a value of the call's result
    type or raises.  A hook also receives [self] and hands it back as it
    left it, whether it returns or raises. *)
Record World := {
  w_unit : trace -> result unit;
  w_bool : trace -> result bool;
  w_int : trace -> result Z;
  w_handle : trace -> result handle;
  w_threads : trace -> result (list handle);
  w_snapshot : trace -> result (option path);
  w_hook : trace -> BaseModel -> BaseModel * result unit
}.

(** ** The monad of method bodies *)

(** What a program has done when we stop looking at it: it returned, it
    raised, or it is still inside the training loop. *)
Inductive outcome (A : Type) :=
| Normal (a : A)
| Raised (e : exn)
| Running.
Arguments Normal {A} a.
Arguments Raised {A} e.
Arguments Running {A}.

(** The state threaded through a method: the calls made so far, the object
    [self], and the local variable [step] of [train], which the [except]
    clauses read after the loop was left by an exception. *)
Record state := State {
  st_trace : trace;
  st_self : BaseModel;
  st_step : Z
}.

Definition M (A : Type) : Type := World -> state -> state * outcome A.

Definition ret {A} (a : A) : M A := fun _ s => (s, Normal a).

Definition bind {A B} (m : M A) (k : A -> M B) : M B :=
  fun w s =>
    match m w s with
    | (s', Normal a) => k a w s'
    | (s', Raised e) => (s', Raised e)
    | (s', Running) => (s', Running)
    end.

#[global] Instance M_ret : MRet M := @ret.
#[global] Instance M_bind : MBind M := fun A B k m => bind m k.

Definition raise {A} (e : exn) : M A := fun _ s => (s, Raised e).

Definition running {A} : M A := fun _ s => (s, Running).

Definition emit (c : call) (s : state) : state :=
  State (st_trace s ++ [c]) (st_self s) (st_step s).

(** A call answered by one of the oracles of the world. *)
Definition ext {A} (oracle : World -> trace -> result A) (c : call) : M A :=
  fun w s =>
    let s' := emit c s in
    match oracle w (st_trace s') with
    | Ret a => (s', Normal a)
    | Exc e => (s', Raised e)
    end.

(** A call of a method the subclass supplies. *)
Definition hook (c : call) : M unit :=
  fun w s =>
    let s' := emit c s in
    let (o, r) := w_hook w (st_trace s') (st_self s') in
    let s'' := State (st_trace s') o (st_step s') in
    match r with
    | Ret _ => (s'', Normal tt)
    | Exc e => (s'', Raised e)
    end.

(** The [print] statement. *)
Definition print (m : message) : M unit :=
  fun _ s => (emit (Print m) s, Normal tt).

(** [self.name], read. *)
Definition attr {A} (proj : BaseModel -> option A) : M A :=
  fun _ s =>
    match proj (st_self s) with
    | Some v => (s, Normal v)
    | None => (s, Raised AttributeError)
    end.

(** [self.name = v]. *)
Definition assign {A} (set : A -> BaseModel -> BaseModel) (v : A) : M unit :=
  fun _ s => (State (st_trace s) (set v (st_self s)) (st_step s), Normal tt).

Definition get_step : M Z := fun _ s => (s, Normal (st_step s)).

Definition set_step (z : Z) : M unit :=
  fun _ s => (State (st_trace s) (st_self s) z, Normal tt).

(** [try: body except C1: h1 except C2: h2 ...]: the first clause whose
    class the exception is an instance of handles it; an exception raised by
    a handler is not offered to the other clauses. *)
Fixpoint select_handler {A} (e : exn) (handlers : list (string * M A))
  : option (M A) :=
  match handlers with
  | [] => None
  | (cls, h) :: rest =>
      if isinstance e cls then Some h else select_handler e rest
  end.

Definition try_except {A} (body : M A) (handlers : list (string * M A)) : M A :=
  fun w s =>
    match body w s with
    | (s', Raised e) =>
        match select_handler e handlers with
        | Some h => h w s'
        | None => (s', Raised e)
        end
    | r => r
    end.

(** [try: body finally: fin]: [fin] runs when [body] is left, normally or
    by an exception; an exception of [fin] replaces the one in flight. *)
Definition try_finally {A} (body : M A) (fin : M unit) : M A :=
  fun w s =>
    match body w s with
    | (s', Running) => (s', Running)
    | (s', r) =>
        match fin w s' with
        | (s'', Normal _) => (s'', r)
        | (s'', Raised e) => (s'', Raised e)
        | (s'', Running) => (s'', Running)
        end
    end.

(** ** tflib/model.py *)

Definition BaseModel_methods : list method_decl :=
  [ MethodDecl "__init__"
      ["self"; "inputs"; "checkpoint_dir"; "is_training"; "reuse"] false;
    MethodDecl "_setup_prediction" ["self"] true;
    MethodDecl "_setup_loss" ["self"] true;
    MethodDecl "_setup_optimizer" ["self"; "learning_rate"] true;
    MethodDecl "_tofetch" ["self"] true;
    MethodDecl "_train_step"
      ["self"; "sess"; "start_time"; "run_options"; "run_metadata"] false;
    MethodDecl "_test_step"
      ["self"; "sess"; "start_time"; "run_options"; "run_metadata"] false;
    MethodDecl "_summary_step" ["self"; "data"] true;
    MethodDecl "load" ["self"; "sess"; "step"] false;
    MethodDecl "save" ["self"; "sess"] false;
    MethodDecl "train"
      ["self"; "learning_rate"; "resume"; "summary_step"; "checkpoint_step"]
      false ].

(** [BaseModel.__init__]. *)
Definition __init__ (inputs_ : handle) (checkpoint_dir_ : path)
    (is_training_ reuse : bool) : M unit :=
  assign set_inputs inputs_;;
  assign set_checkpoint_dir checkpoint_dir_;;
  assign set_is_training is_training_;;
  assign set_layers ∅;;
  assign set_summaries [];;
  assign set_eval_summaries [];;
  gs ← ext w_handle (TfVariable (PyInt 0) "global_step");
  assign set_global_step gs;;
  hook Hook_setup_prediction;;
  sv ← ext w_handle TfSaver;
  assign set_saver sv.

(** [BaseModel(inputs, checkpoint_dir, is_training, reuse)] after the calls
    of [history]: the object [__init__] leaves, or the exception. *)
Definition construct (inputs_ : handle) (checkpoint_dir_ : path)
    (is_training_ reuse : bool) (w : World) (history : trace)
  : state * outcome unit :=
  __init__ inputs_ checkpoint_dir_ is_training_ reuse w
    (State history blank 0).

(** [_train_step]: the value is [data['step']], the only entry of [data]
    this module reads besides handing [data] to the hook and the writer; it
    is what the session gives for the global step, an integer. *)
Definition _train_step (sess : handle) : M Z :=
  hook Hook_tofetch;;
  _ ← attr global_step;
  _ ← attr merged_summaries;
  _ ← attr global_step;
  ext w_int (SessRunGlobalStep sess);;
  step ← ext w_int (SessRunFetch sess);
  ext w_unit TimeTime;;
  ret step.

(** [l[0]] for a list. *)
Definition first_item {A} (l : list A) : M A :=
  match l with
  | [] => raise IndexError
  | x :: _ => ret x
  end.

(** [_test_step].  [self.is_correct] is an attribute that [BaseModel] never
    assigns; a subclass does.  [is_correct] is what the attribute holds when
    the method reads it: [None] when it is not set, a list otherwise.  The
    value is [data['step']], as for [_train_step]. *)
Definition _test_step (is_correct : option (list handle)) (sess : handle)
  : M Z :=
  hook Hook_tofetch;;
  _ ← attr global_step;
  l ← match is_correct with
      | Some l => ret l
      | None => raise AttributeError
      end;
  _ ← first_item l;
  step ← ext w_int (SessRunFetch sess);
  ext w_unit TimeTime;;
  ret step.

(** [load]. *)
Definition load (sess : handle) (step : option Z) : M unit :=
  checkpoint_path ←
    match step with
    | None =>
        dir ← attr checkpoint_dir;
        ext w_snapshot (LatestCheckpoint dir)
    | Some n =>
        dir ← attr checkpoint_dir;
        ret (Some (path_join dir ("model-" +:+ py_str n)))
    end;
  sv ← attr saver;
  ext w_unit (SaverRestore sv sess checkpoint_path);;
  _ ← attr global_step;
  step' ← ext w_int (GlobalStepValue sess);
  print (MsgLoaded step' checkpoint_path).

(** [save]. *)
Definition save (sess : handle) : M unit :=
  dir ← attr checkpoint_dir;
  let checkpoint_path := path_join dir "model" in
  dir ← attr checkpoint_dir;
  present ← ext w_bool (PathExists dir);
  (if negb present
   then dir ← attr checkpoint_dir; ext w_unit (MakeDirs dir)
   else ret tt);;
  sv ← attr saver;
  _ ← attr global_step;
  ext w_unit (SaverSave sv sess checkpoint_path).

(** [a % b] on Python integers, [b] being an integer or [None]. *)
Definition py_mod (a : Z) (b : option Z) : M Z :=
  match b with
  | None => raise TypeError
  | Some 0 => raise ZeroDivisionError
  | Some k => ret (a mod k)
  end.

(** [step > 0 and step % summary_step == 0]. *)
Definition summary_due (step : Z) (summary_step : option Z) : M bool :=
  if bool_decide (0 < step)
  then r ← py_mod step summary_step; ret (bool_decide (r = 0))
  else ret false.

(** [checkpoint_step is not None and (step > 0)
     and step % checkpoint_step == 0]. *)
Definition checkpoint_due (step : Z) (checkpoint_step : option Z) : M bool :=
  match checkpoint_step with
  | None => ret false
  | Some _ =>
      if bool_decide (0 < step)
      then r ← py_mod step checkpoint_step; ret (bool_decide (r = 0))
      else ret false
  end.

(** The first [if] statement of the loop: the summary of a step that is
    due. *)
Definition log_summary (step : Z) (summary_step : option Z) : M unit :=
  log ← summary_due step summary_step;
  if log : bool
  then ext w_unit SetPrintoptions;;
       hook (Hook_summary_step step);;
       print (MsgSummary step);;
       wr ← attr summary_writer;
       ext w_unit (AddSummary wr step)
  else ret tt.

(** The second [if] statement of the loop: the checkpoint of a step that is
    due. *)
Definition periodic_checkpoint (sess : handle) (step : Z)
    (checkpoint_step : option Z) : M unit :=
  ckpt ← checkpoint_due step checkpoint_step;
  if ckpt : bool
  then print (MsgSavingCheckpoint step);; save sess
  else ret tt.

(** The body of the [while] statement of [train]. *)
Definition train_iteration (sess : handle)
    (summary_step checkpoint_step : option Z) : M unit :=
  step ← _train_step sess;
  set_step step;;
  log_summary step summary_step;;
  periodic_checkpoint sess step checkpoint_step.

(** The [while] statement of [train], observed for at most [fuel]
    iterations. *)
Fixpoint train_loop (fuel : nat) (sess coord : handle)
    (summary_step checkpoint_step : option Z) : M unit :=
  match fuel with
  | O => running
  | S fuel' =>
      stop ← ext w_bool (ShouldStop coord);
      if stop : bool then ret tt
      else train_iteration sess summary_step checkpoint_step;;
           train_loop fuel' sess coord summary_step checkpoint_step
  end.

(** The two [except] clauses of [train]. *)
Definition train_handlers (sess : handle) : list (string * M unit) :=
  [ ("KeyboardInterrupt",
     step ← get_step; print (MsgInterrupted step);; save sess);
    ("tf.errors.OutOfRangeError",
     step ← get_step; print (MsgCompleted step);; save sess) ].

(** The [finally] clause of [train]. *)
Definition train_finally (coord : handle) : M unit :=
  print MsgShuttingDown;;
  ext w_unit (RequestStop coord);;
  wr ← attr summary_writer;
  ext w_unit (WriterClose wr).

(** The [try] statement of [train]. *)
Definition train_try (fuel : nat) (sess coord : handle)
    (summary_step checkpoint_step : option Z) : M unit :=
  try_finally
    (try_except (train_loop fuel sess coord summary_step checkpoint_step)
                (train_handlers sess))
    (train_finally coord).

(** The statements of the [with] block of [train] that follow the
    assignment of [self.summary_writer]. *)
Definition train_session_rest (fuel : nat) (resume : bool)
    (summary_step checkpoint_step : option Z) (sess : handle) : M unit :=
  print MsgInitializing;;
  ext w_unit LocalVariablesInit;;
  ext w_unit GlobalVariablesInit;;
  (if resume then load sess None else ret tt);;
  print MsgStartingCoordinator;;
  coord ← ext w_handle CoordinatorNew;
  threads ← ext w_threads (StartQueueRunners sess coord);
  print MsgStartingOptimization;;
  ext w_unit TimeTime;;
  set_step 0;;
  train_try fuel sess coord summary_step checkpoint_step;;
  print MsgWaiting;;
  ext w_unit (CoordJoin coord threads);;
  print MsgDone.

(** The body of the [with tf.Session() as sess] statement of [train]. *)
Definition train_session (fuel : nat) (resume : bool)
    (summary_step checkpoint_step : option Z) (sess : handle) : M unit :=
  dir ← attr checkpoint_dir;
  wr ← ext w_handle (FileWriterOpen dir);
  assign set_summary_writer wr;;
  train_session_rest fuel resume summary_step checkpoint_step sess.

(** [train], the loop observed for at most [fuel] iterations.  The session
    is a context manager that does not swallow exceptions: leaving the
    [with] block closes it and the exception goes on. *)
Definition train (fuel : nat) (learning_rate : pyval) (resume : bool)
    (summary_step checkpoint_step : option Z) : M unit :=
  lr ← ext w_handle (TfVariable learning_rate "learning_rate");
  l ← attr summaries;
  sm ← ext w_handle (SummaryScalar "learning_rate" lr);
  assign set_summaries (l ++ [sm]);;
  hook Hook_setup_loss;;
  hook (Hook_setup_optimizer lr);;
  l ← attr summaries;
  merged ← ext w_handle (SummaryMerge l);
  assign set_merged_summaries merged;;
  sess ← ext w_handle SessionOpen;
  try_finally (train_session fuel resume summary_step checkpoint_step sess)
              (ext w_unit (SessionClose sess)).

(** The default arguments of [train]. *)
Definition default_summary_step : option Z := Some 100.
Definition default_checkpoint_step : option Z := Some 100.

(** ** Reading traces *)

Definition is_fetch (c : call) : bool :=
  match c with SessRunFetch _ => true | _ => false end.

(** The calls [save] makes. *)
Definition is_save_call (c : call) : bool :=
  match c with
  | PathExists _ | MakeDirs _ | SaverSave _ _ _ => true
  | _ => false
  end.

(** The calls [load] makes. *)
Definition is_load_call (c : call) : bool :=
  match c with
  | LatestCheckpoint _ | SaverRestore _ _ _ | GlobalStepValue _ => true
  | _ => false
  end.

(** The calls of the [while] statement. *)
Definition is_loop_call (c : call) : bool :=
  match c with
  | ShouldStop _ | Hook_tofetch | SessRunGlobalStep _ | SessRunFetch _
  | SetPrintoptions | Hook_summary_step _ | AddSummary _ _
  | Print (MsgSummary _) | Print (MsgSavingCheckpoint _) => true
  | _ => false
  end.

Fixpoint count_calls (p : call -> bool) (tr : trace) : nat :=
  match tr with
  | [] => O
  | c :: rest => if p c then S (count_calls p rest) else count_calls p rest
  end.

(** ** Worlds to run the model in *)

(** A world in which every call returns, but for the script of the data:
    [fetch k] is what the [k]-th run of the fetches gives (a step number, or
    an exception), and [stop k] is what [coord.should_stop()] answers after
    [k] such runs.  The checkpoint directory exists iff [present]; handles
    are numbered by the position of the call that made them; hooks leave
    [self] alone. *)
Definition scripted (fetch : nat -> result Z) (stop : nat -> bool)
    (present : bool) : World :=
  {| w_unit := fun _ => Ret tt;
     w_bool := fun tr =>
       match last tr with
       | Some (ShouldStop _) => Ret (stop (count_calls is_fetch tr))
       | _ => Ret present
       end;
     w_int := fun tr =>
       match last tr with
       | Some (SessRunFetch _) => fetch (count_calls is_fetch tr)
       | _ => Ret (Z.of_nat (count_calls is_fetch tr))
       end;
     w_handle := fun tr => Ret (length tr);
     w_threads := fun tr => Ret [length tr; S (length tr)];
     w_snapshot := fun tr =>
       match last tr with
       | Some (LatestCheckpoint d) => Ret (Some (path_join d "model-0"))
       | _ => Ret None
       end;
     w_hook := fun _ o => (o, Ret tt) |}.

(** The global step counts the runs: the [k]-th fetch gives [k]. *)
Definition counting (k : nat) : result Z := Ret (Z.of_nat k).

(** Data that never ends and a coordinator that never stops. *)
Definition endless : World := scripted counting (fun _ => false) true.

(** The [n]-th run of the fetches raises [e]. *)
Definition failing_at (n : nat) (e : exn) : World :=
  scripted (fun k => if bool_decide (k = n) then Exc e else counting k)
           (fun _ => false) true.

(** The coordinator asks to stop after [n] runs of the fetches. *)
Definition stopping_after (n : nat) : World :=
  scripted counting (fun k => bool_decide (n ≤ k)%nat) true.

(** The world [w], but for the call that makes entry number [n] of the
    trace (counted from 0, the prints included), which raises [e]. *)
Definition raising_at (n : nat) (e : exn) (w : World) : World :=
  {| w_unit := fun tr =>
       if bool_decide (length tr = S n) then Exc e else w_unit w tr;
     w_bool := fun tr =>
       if bool_decide (length tr = S n) then Exc e else w_bool w tr;
     w_int := fun tr =>
       if bool_decide (length tr = S n) then Exc e else w_int w tr;
     w_handle := fun tr =>
       if bool_decide (length tr = S n) then Exc e else w_handle w tr;
     w_threads := fun tr =>
       if bool_decide (length tr = S n) then Exc e else w_threads w tr;
     w_snapshot := fun tr =>
       if bool_decide (length tr = S n) then Exc e else w_snapshot w tr;
     w_hook := fun tr o =>
       if bool_decide (length tr = S n) then (o, Exc e) else w_hook w tr o |}.

(** A world whose checkpoint directory holds no checkpoint:
    [tf.train.latest_checkpoint] answers [None], and [saver.restore]
    raises [ValueError] when it is handed [None]; otherwise as [endless]. *)
Definition no_checkpoint : World :=
  {| w_unit := fun tr =>
       match last tr with
       | Some (SaverRestore _ _ None) => Exc ValueError
       | _ => w_unit endless tr
       end;
     w_bool := w_bool endless;
     w_int := w_int endless;
     w_handle := w_handle endless;
     w_threads := w_threads endless;
     w_snapshot := fun _ => Ret None;
     w_hook := w_hook endless |}.

(** An object as [__init__] leaves it in the world [endless]. *)
Definition sample_model : BaseModel :=
  (construct 0%nat "ckpt" true false endless []).1.(st_self).

Definition start (o : BaseModel) : state := State [] o 0.

(** A state as [train] has it when it enters the loop: the merged summaries
    and the summary writer are set. *)
Definition at_loop : state :=
  start (set_summary_writer 7%nat (set_merged_summaries 5%nat sample_model)).

(** ** The vocabulary of the statements *)

(** [emits w I G m Q]: run in the world [w] from a state whose [self]
    satisfies [I], the program [m] keeps [I], adds to the trace a segment
    that satisfies [G], and, when it returns, returns a value that
    satisfies [Q].  The rules need [G] to hold of the empty segment and to
    be closed under concatenation, and the hooks of [w] to keep [I]. *)
Definition emits (w : World) (I : BaseModel -> Prop) (G : trace -> Prop)
    {A} (m : M A) (Q : A -> Prop) : Prop :=
  ∀ s s' o, I (st_self s) → m w s = (s', o) →
    I (st_self s') ∧
    (∃ seg, st_trace s' = st_trace s ++ seg ∧ G seg) ∧
    match o with Normal a => Q a | _ => True end.

(** [step] is a positive multiple of the frequency [every]; never, when the
    frequency is [None]. *)
Definition positive_multiple (step : Z) (every : option Z) : Prop :=
  ∃ n, every = Some n ∧ 0 < step ∧ (n | step).

(** The step a call of the summary block is made for. *)
Definition summary_call (c : call) : option Z :=
  match c with
  | Hook_summary_step st | Print (MsgSummary st) | AddSummary _ st => Some st
  | _ => None
  end.

(** The calls that are made whatever the arguments of [train] are. *)
Definition plain (c : call) : bool :=
  match c with
  | Print MsgInitializing | Print MsgStartingCoordinator
  | Print MsgStartingOptimization | Print MsgShuttingDown
  | Print MsgWaiting | Print MsgDone => true
  | Print _ => false
  | Hook_summary_step _ | AddSummary _ _ | FileWriterOpen _ => false
  | LatestCheckpoint _ | SaverRestore _ _ _ | GlobalStepValue _ => false
  | PathExists _ | MakeDirs _ | SaverSave _ _ _ => false
  | _ => true
  end.

Section Shape.
(** [D] holds of the directories the object may name as its checkpoint
    directory; [whole] tells the traces of [train] from those of its loop
    alone. *)
Variable D : path -> Prop.
Variable whole : bool.
Variable resume : bool.
Variables summary_step checkpoint_step : option Z.

(** What one call of [save] adds to the trace, as far as it gets. *)
Inductive save_calls : trace -> Prop :=
| save_calls_none : save_calls []
| save_calls_exists d : D d → save_calls [PathExists d]
| save_calls_makedirs d : D d → save_calls [PathExists d; MakeDirs d]
| save_calls_kept d sv sess :
    D d → save_calls [PathExists d; SaverSave sv sess (path_join d "model")]
| save_calls_made d sv sess :
    D d →
    save_calls [PathExists d; MakeDirs d;
                SaverSave sv sess (path_join d "model")].

(** What [load(sess)] adds to the trace, as far as it gets. *)
Inductive load_calls : trace -> Prop :=
| load_calls_none : load_calls []
| load_calls_latest d : D d → load_calls [LatestCheckpoint d]
| load_calls_restore d sv sess p :
    D d → load_calls [LatestCheckpoint d; SaverRestore sv sess p]
| load_calls_value d sv sess p :
    D d →
    load_calls [LatestCheckpoint d; SaverRestore sv sess p;
                GlobalStepValue sess]
| load_calls_done d sv sess p st :
    D d →
    load_calls [LatestCheckpoint d; SaverRestore sv sess p;
                GlobalStepValue sess; Print (MsgLoaded st p)].

(** What [train] (when [whole]) or its loop alone (otherwise) may add to
    the trace: segments put one after the other, each a call that is always
    allowed, a call of the summary block for a step that is due, the
    message of a periodic checkpoint that is due with the calls of its
    [save], and, for [train], the opening of the summary writer, the calls
    of [load] when [resume] is set, and the message of an [except] clause
    with the calls of its [save]. *)
Inductive shape : trace -> Prop :=
| shape_nil : shape []
| shape_app a b : shape a → shape b → shape (a ++ b)
| shape_plain c : plain c = true → shape [c]
| shape_summary c st :
    summary_call c = Some st → positive_multiple st summary_step →
    shape [c]
| shape_checkpoint st blk :
    positive_multiple st checkpoint_step → save_calls blk →
    shape (Print (MsgSavingCheckpoint st) :: blk)
| shape_writer d : whole = true → D d → shape [FileWriterOpen d]
| shape_load blk : whole = true → resume = true → load_calls blk → shape blk
| shape_interrupted st blk :
    whole = true → save_calls blk → shape (Print (MsgInterrupted st) :: blk)
| shape_completed st blk :
    whole = true → save_calls blk → shape (Print (MsgCompleted st) :: blk).

End Shape.

(** The directory a call names. *)
Definition dir_of (c : call) : option path :=
  match c with
  | FileWriterOpen d | LatestCheckpoint d | PathExists d | MakeDirs d => Some d
  | _ => None
  end.

(** The calls and the message of [load]. *)
Definition from_load (c : call) : bool :=
  match c with
  | Print (MsgLoaded _ _) => true
  | _ => is_load_call c
  end.

(** The messages printed right before a call of [save]: the periodic one
    needs a step that is due; those of the [except] clauses are not printed
    by the loop itself. *)
Definition save_marker (whole : bool) (checkpoint_step : option Z)
    (m : message) : Prop :=
  match m with
  | MsgSavingCheckpoint st => positive_multiple st checkpoint_step
  | MsgInterrupted _ | MsgCompleted _ => whole = true
  | _ => False
  end.

(** Every call of [save] in the segment comes after a print that
    [save_marker] accepts, with nothing but calls of that [save] between the
    two. *)
Definition marked_saves (whole : bool) (checkpoint_step : option Z)
    (seg : trace) : Prop :=
  ∀ pre c post, seg = pre ++ c :: post → is_save_call c = true →
    ∃ pre0 m blk0,
      pre = pre0 ++ Print m :: blk0 ∧
      Forall (fun c' => is_save_call c' = true) blk0 ∧
      save_marker whole checkpoint_step m.

(** What the shape allows of a single call. *)
Definition allowed (D : path -> Prop) (whole resume : bool)
    (summary_step checkpoint_step : option Z) (c : call) : Prop :=
  (∀ st, summary_call c = Some st → positive_multiple st summary_step) ∧
  (∀ m, c = Print m → plain c = false → from_load c = false →
        summary_call c = None → save_marker whole checkpoint_step m) ∧
  (∀ d, dir_of c = Some d → D d) ∧
  (∀ sv sess p, c = SaverSave sv sess p → ∃ d, D d ∧ p = path_join d "model") ∧
  (from_load c = true → resume = true ∧ whole = true) ∧
  (∀ d, c = FileWriterOpen d → whole = true).

(** What [step > 0 and step % every == 0] evaluates to. *)
Definition modulus_test (step : Z) (every : option Z) : outcome bool :=
  if bool_decide (0 < step)
  then match every with
       | None => Raised TypeError
       | Some 0 => Raised ZeroDivisionError
       | Some k => Normal (bool_decide (step `mod` k = 0))
       end
  else Normal false.

(** The calls of one [_train_step]. *)
Definition train_step_calls (sess : handle) : trace :=
  [Hook_tofetch; SessRunGlobalStep sess; SessRunFetch sess; TimeTime].

(** The hooks of the subclass leave [self.checkpoint_dir] alone. *)
Definition keeps_checkpoint_dir (w : World) : Prop :=
  ∀ tr o, checkpoint_dir (w_hook w tr o).1 = checkpoint_dir o.

(** The calls of a [save] that returns. *)
Definition save_block (sess sv : handle) (d : path) (present : bool) : trace :=
  PathExists d :: (if present then [] else [MakeDirs d]) ++
  [SaverSave sv sess (path_join d "model")].

(** The calls of the [finally] clause when it returns. *)
Definition finally_block (coord wr : handle) : trace :=
  [Print MsgShuttingDown; RequestStop coord; WriterClose wr].

(** The calls between the loop and the end of the [with] block when the
    block is left normally. *)
Definition join_block (coord : handle) (threads : list handle) : trace :=
  [Print MsgWaiting; CoordJoin coord threads; Print MsgDone].

(** The calls right before the loop. *)
Definition start_block (sess coord : handle) : trace :=
  [StartQueueRunners sess coord; Print MsgStartingOptimization; TimeTime].

(** The calls that write into the directory [d]: [os.makedirs] on it, a
    checkpoint saved under the prefix [d/model], and the summary writer
    opened on it, which creates its event file there. *)
Definition writes_into (d : path) (c : call) : bool :=
  match c with
  | MakeDirs d' | FileWriterOpen d' => bool_decide (d' = d)
  | SaverSave _ _ p => bool_decide (p = path_join d "model")
  | _ => false
  end.

(** C6 as it is stated: in a run of [train], whatever writes into the
    checkpoint directory is a call of [save]. *)
Definition written_only_by_save : Prop :=
  ∀ w fuel lr resume ss cs s s' o d seg c,
    keeps_checkpoint_dir w → checkpoint_dir (st_self s) = Some d →
    train fuel lr resume ss cs w s = (s', o) →
    st_trace s' = st_trace s ++ seg → c ∈ seg →
    writes_into d c = true → is_save_call c = true.

(** The object has what the loop reads. *)
Definition ready (o : BaseModel) : Prop :=
  is_Some (checkpoint_dir o) ∧ is_Some (global_step o) ∧ is_Some (saver o) ∧
  is_Some (merged_summaries o) ∧ is_Some (summary_writer o).

(** A frequency the modulus test accepts. *)
Definition usable (every : option Z) : Prop := ∃ n, every = Some n ∧ n ≠ 0.

(** A world in which the coordinator never asks to stop and no call
    raises; its hooks leave [self] alone. *)
Definition never_stops (w : World) : Prop :=
  (∀ tr, w_unit w tr = Ret tt) ∧
  (∀ tr coord, w_bool w (tr ++ [ShouldStop coord]) = Ret false) ∧
  (∀ tr d, ∃ b, w_bool w (tr ++ [PathExists d]) = Ret b) ∧
  (∀ tr, ∃ z, w_int w tr = Ret z) ∧
  (∀ tr o, w_hook w tr o = (o, Ret tt)).

(** C4 as it is stated: a finite [Config.n_epochs] bounds the number of
    train steps of the loop. *)
Definition epochs_bound_the_loop : Prop :=
  ∀ (cfg : gmap string pyval) (n : Z),
    cfg !! "n_epochs" = Some (PyInt n) →
    ∃ bound : nat,
      ∀ w fuel sess coord ss cs s s' o,
        train_loop fuel sess coord ss cs w s = (s', o) →
        (count_calls is_fetch (st_trace s') ≤
         count_calls is_fetch (st_trace s) + bound)%nat.

(** The calls of one [_test_step]. *)
Definition test_step_calls (sess : handle) : trace :=
  [Hook_tofetch; SessRunFetch sess; TimeTime].

(** The calls of a [load(sess)] that returns. *)
Definition load_block (sess sv : handle) (d : path) (p : option path)
    (st : Z) : trace :=
  [LatestCheckpoint d; SaverRestore sv sess p; GlobalStepValue sess;
   Print (MsgLoaded st p)].

(** The calls with which [train] builds the graph and opens the session,
    when all of them return. *)
Definition graph_block (lr : pyval) (lrh : handle) (l : list handle) : trace :=
  [TfVariable lr "learning_rate"; SummaryScalar "learning_rate" lrh;
   Hook_setup_loss; Hook_setup_optimizer lrh; SummaryMerge l; SessionOpen].

(** The calls with which [train] builds the graph, before it opens the
    session. *)
Definition builds_graph (c : call) : bool :=
  match c with
  | TfVariable _ _ | SummaryScalar _ _ | Hook_setup_loss
  | Hook_setup_optimizer _ | SummaryMerge _ => true
  | _ => false
  end.

(** The calls [train] makes in the statements that follow
    [if resume: self.load(sess)]. *)
Definition follows_load (c : call) : bool :=
  match c with
  | Print MsgStartingCoordinator | Print MsgStartingOptimization
  | Print (MsgSummary _) | Print (MsgSavingCheckpoint _)
  | Print (MsgInterrupted _) | Print (MsgCompleted _)
  | Print MsgShuttingDown | Print MsgWaiting | Print MsgDone
  | CoordinatorNew | StartQueueRunners _ _ | ShouldStop _ | RequestStop _
  | CoordJoin _ _
  | Hook_tofetch | Hook_summary_step _ | SessRunGlobalStep _ | SessRunFetch _
  | TimeTime | SetPrintoptions
  | AddSummary _ _ | WriterClose _
  | PathExists _ | MakeDirs _ | SaverSave _ _ _ => true
  | _ => false
  end.

(** The calls of the statements between [load] and the [try] statement. *)
Definition starts_threads (sess : handle) (c : call) : Prop :=
  c = Print MsgStartingCoordinator ∨ c = CoordinatorNew ∨
  (∃ coord, c = StartQueueRunners sess coord) ∨
  c = Print MsgStartingOptimization ∨ c = TimeTime.

(** The calls that shut the run down. *)
Definition shuts_down (c : call) : bool :=
  match c with
  | RequestStop _ | CoordJoin _ _ | WriterClose _ => true
  | _ => false
  end.

(** The messages of the two [except] clauses. *)
Definition handler_message (c : call) : option Z :=
  match c with
  | Print (MsgInterrupted st) | Print (MsgCompleted st) => Some st
  | _ => None
  end.

(** The calls of the first statements of the [with] block. *)
Definition init_block : trace :=
  [Print MsgInitializing; LocalVariablesInit; GlobalVariablesInit].

(** What [if resume: self.load(sess)] adds to the trace when it is done. *)
Definition resumed (resume : bool) (sess : handle) (ld : trace) : Prop :=
  if resume then ∃ sv d p st, ld = load_block sess sv d p st else ld = [].

(** [st] is a step a run of the fetches returned in the segment [seg] that
    follows the calls [done]. *)
Definition fetched (w : World) (done seg : trace) (st : Z) : Prop :=
  ∃ pre sess post,
    seg = pre ++ SessRunFetch sess :: post ∧
    w_int w (done ++ pre ++ [SessRunFetch sess]) = Ret st.

(** The hooks of the subclass leave [self.summaries] alone. *)
Definition keeps_summaries (w : World) : Prop :=
  ∀ tr o, summaries (w_hook w tr o).1 = summaries o.

(** The hooks of the subclass leave [self.merged_summaries] alone. *)
Definition keeps_merged_summaries (w : World) : Prop :=
  ∀ tr o, merged_summaries (w_hook w tr o).1 = merged_summaries o.

(** The attributes [__init__] assigns and [train] does not. *)
Definition fixed_attributes (o : BaseModel) :=
  (inputs o, checkpoint_dir o, is_training o, layers o, eval_summaries o,
   global_step o, saver o).

(** The hooks of the subclass leave those attributes alone. *)
Definition keeps_fixed_attributes (w : World) : Prop :=
  ∀ tr o, fixed_attributes (w_hook w tr o).1 = fixed_attributes o.

(** ** A logic of the calls a program makes *)

Section Emits.
Variable w : World.
Variable I : BaseModel -> Prop.
Variable G : trace -> Prop.
Hypothesis hooks_keep : ∀ tr o, I o → I (w_hook w tr o).1.
Hypothesis G_nil : G [].
Hypothesis G_app : ∀ a b, G a → G b → G (a ++ b).

Local Abbreviation emits := (emits w I G).

Lemma emits_post {A} (m : M A) (Q Q' : A -> Prop) :
  emits m Q → (∀ a, Q a → Q' a) → emits m Q'.
Proof.
  intros Hm HQ s s' o Hs Hrun.
  destruct (Hm s s' o Hs Hrun) as (HI & Hseg & Ho).
  repeat split; auto. destruct o; auto.
Qed.

Lemma emits_ret {A} (a : A) (Q : A -> Prop) : Q a → emits (ret a) Q.
Proof.
  intros HQ s s' o Hs Hrun. injection Hrun as <- <-.
  repeat split; auto. exists []. by rewrite app_nil_r.
Qed.

Lemma emits_raise {A} (e : exn) (Q : A -> Prop) : emits (raise e) Q.
Proof.
  intros s s' o Hs Hrun. injection Hrun as <- <-.
  repeat split; auto. exists []. by rewrite app_nil_r.
Qed.

Lemma emits_running {A} (Q : A -> Prop) : emits running Q.
Proof.
  intros s s' o Hs Hrun. injection Hrun as <- <-.
  repeat split; auto. exists []. by rewrite app_nil_r.
Qed.

Lemma emits_bind {A B} (m : M A) (k : A -> M B) (Q1 : A -> Prop)
    (Q2 : B -> Prop) :
  emits m Q1 → (∀ a, Q1 a → emits (k a) Q2) → emits (a ← m; k a) Q2.
Proof.
  intros Hm Hk s s' o Hs Hrun.
  unfold mbind, M_bind, bind in Hrun.
  destruct (m w s) as [s1 o1] eqn:E1.
  destruct (Hm s s1 o1 Hs E1) as (HI1 & (seg1 & Ht1 & HG1) & Ho1).
  destruct o1 as [a| e |].
  - destruct (Hk a Ho1 s1 s' o HI1 Hrun) as (HI2 & (seg2 & Ht2 & HG2) & Ho2).
    repeat split; auto.
    exists (seg1 ++ seg2). rewrite Ht2, Ht1, app_assoc. auto.
  - injection Hrun as <- <-. repeat split; eauto.
  - injection Hrun as <- <-. repeat split; eauto.
Qed.

Lemma emits_ext {A} (oracle : World -> trace -> result A) (c : call) :
  G [c] → emits (ext oracle c) (fun _ => True).
Proof.
  intros Hc s s' o Hs Hrun. unfold ext in Hrun.
  destruct (oracle w _); injection Hrun as <- <-;
    (repeat split; auto; exists [c]; auto).
Qed.

Lemma emits_hook (c : call) : G [c] → emits (hook c) (fun _ => True).
Proof.
  intros Hc s s' o Hs Hrun. unfold hook in Hrun.
  pose proof (hooks_keep (st_trace (emit c s)) (st_self s) Hs) as Hk.
  simpl in Hrun.
  destruct (w_hook w _ _) as [o' r]; simpl in Hk.
  destruct r; injection Hrun as <- <-;
    (repeat split; auto; exists [c]; auto).
Qed.

Lemma emits_print (m : message) :
  G [Print m] → emits (print m) (fun _ => True).
Proof.
  intros Hc s s' o Hs Hrun. injection Hrun as <- <-.
  repeat split; auto. exists [Print m]; auto.
Qed.

Lemma emits_attr {A} (proj : BaseModel -> option A) :
  emits (attr proj) (fun v => ∃ o, I o ∧ proj o = Some v).
Proof.
  intros s s' o Hs Hrun. unfold attr in Hrun.
  destruct (proj (st_self s)) eqn:E; injection Hrun as <- <-;
    (repeat split; eauto; exists []; by rewrite app_nil_r).
Qed.

Lemma emits_assign {A} (set : A -> BaseModel -> BaseModel) (v : A) :
  (∀ o, I o → I (set v o)) → emits (assign set v) (fun _ => True).
Proof.
  intros Hset s s' o Hs Hrun. unfold assign in Hrun.
  injection Hrun as <- <-. simpl.
  repeat split; auto. exists []. by rewrite app_nil_r.
Qed.

Lemma emits_get_step : emits get_step (fun _ => True).
Proof.
  intros s s' o Hs Hrun. unfold get_step in Hrun. injection Hrun as <- <-.
  repeat split; auto. exists []. by rewrite app_nil_r.
Qed.

Lemma emits_set_step (z : Z) : emits (set_step z) (fun _ => True).
Proof.
  intros s s' o Hs Hrun. injection Hrun as <- <-.
  repeat split; auto. exists []. by rewrite app_nil_r.
Qed.

Lemma emits_try_except {A} (body : M A) (handlers : list (string * M A))
    (Q : A -> Prop) :
  emits body Q → Forall (fun h => emits h.2 Q) handlers →
  emits (try_except body handlers) Q.
Proof.
  intros Hb Hh s s' o Hs Hrun. unfold try_except in Hrun.
  destruct (body w s) as [s1 o1] eqn:E1.
  destruct (Hb s s1 o1 Hs E1) as (HI1 & (seg1 & Ht1 & HG1) & Ho1).
  destruct o1 as [a| e |]; try (injection Hrun as <- <-; repeat split; eauto).
  destruct (select_handler e handlers) as [h|] eqn:Eh.
  - assert (emits h Q) as Hh'.
    { clear -Hh Eh. induction Hh as [|[cls h'] rest Hh' _ IH]; [done|].
      simpl in Eh. destruct (isinstance e cls); [by injection Eh as <-|auto]. }
    destruct (Hh' s1 s' o HI1 Hrun) as (HI2 & (seg2 & Ht2 & HG2) & Ho2).
    repeat split; auto.
    exists (seg1 ++ seg2). rewrite Ht2, Ht1, app_assoc. auto.
  - injection Hrun as <- <-. repeat split; eauto.
Qed.

Lemma emits_try_finally {A} (body : M A) (fin : M unit) (Q : A -> Prop)
    (Qf : unit -> Prop) :
  emits body Q → emits fin Qf → emits (try_finally body fin) Q.
Proof.
  intros Hb Hf s s' o Hs Hrun. unfold try_finally in Hrun.
  destruct (body w s) as [s1 o1] eqn:E1.
  destruct (Hb s s1 o1 Hs E1) as (HI1 & (seg1 & Ht1 & HG1) & Ho1).
  assert (∀ o2, (match fin w s1 with
                 | (s2, Normal _) => (s2, o2)
                 | (s2, Raised e) => (s2, Raised e)
                 | (s2, Running) => (s2, Running)
                 end) = (s', o) →
          I (st_self s') ∧
          (∃ seg, st_trace s' = st_trace s ++ seg ∧ G seg) ∧
          (o = o2 ∨ match o with Normal _ => False | _ => True end)) as Hfin.
  { intros o2 Hrun2. destruct (fin w s1) as [s2 o3] eqn:E2.
    destruct (Hf s1 s2 o3 HI1 E2) as (HI2 & (seg2 & Ht2 & HG2) & _).
    assert (∃ seg, st_trace s2 = st_trace s ++ seg ∧ G seg) as Hseg.
    { exists (seg1 ++ seg2). rewrite Ht2, Ht1, app_assoc. auto. }
    destruct o3; injection Hrun2 as <- <-; repeat split; auto. }
  destruct o1 as [a| e |].
  - destruct (Hfin _ Hrun) as (? & ? & [-> | Ho]); repeat split; auto.
    destruct o; tauto.
  - destruct (Hfin _ Hrun) as (? & ? & [-> | Ho]); repeat split; auto.
    destruct o; tauto.
  - injection Hrun as <- <-. repeat split; eauto.
Qed.

End Emits.

(** ** Inverting runs *)

Lemma bind_inv {A B} (m : M A) (k : A -> M B) w s s' o :
  (a ← m; k a) w s = (s', o) →
  (∃ s1 a, m w s = (s1, Normal a) ∧ k a w s1 = (s', o)) ∨
  (∃ e, m w s = (s', Raised e) ∧ o = Raised e) ∨
  (m w s = (s', Running) ∧ o = Running).
Proof.
  unfold mbind, M_bind, bind. destruct (m w s) as [s1 [a|e|]]; intros H.
  - left. eauto.
  - right. left. injection H as <- <-. eauto.
  - right. right. injection H as <- <-. eauto.
Qed.

Lemma ret_inv {A} (a : A) w s s' o :
  ret a w s = (s', o) → s' = s ∧ o = Normal a.
Proof. intros H. by injection H as <- <-. Qed.

Lemma raise_inv {A} (e : exn) w s s' (o : outcome A) :
  raise e w s = (s', o) → s' = s ∧ o = Raised e.
Proof. intros H. by injection H as <- <-. Qed.

Lemma running_inv {A} w s s' (o : outcome A) :
  running w s = (s', o) → s' = s ∧ o = Running.
Proof. intros H. by injection H as <- <-. Qed.

Lemma print_inv m w s s' o :
  print m w s = (s', o) → s' = emit (Print m) s ∧ o = Normal tt.
Proof. intros H. by injection H as <- <-. Qed.

Lemma assign_inv {A} (set : A -> BaseModel -> BaseModel) v w s s' o :
  assign set v w s = (s', o) →
  s' = State (st_trace s) (set v (st_self s)) (st_step s) ∧ o = Normal tt.
Proof. unfold assign. intros H. by injection H as <- <-. Qed.

Lemma get_step_inv w s s' o :
  get_step w s = (s', o) → s' = s ∧ o = Normal (st_step s).
Proof. unfold get_step. intros H. by injection H as <- <-. Qed.

Lemma set_step_inv z w s s' o :
  set_step z w s = (s', o) →
  s' = State (st_trace s) (st_self s) z ∧ o = Normal tt.
Proof. unfold set_step. intros H. by injection H as <- <-. Qed.

Lemma attr_inv {A} (proj : BaseModel -> option A) w s s' o :
  attr proj w s = (s', o) →
  s' = s ∧
  match o with
  | Normal v => proj (st_self s) = Some v
  | Raised e => e = AttributeError ∧ proj (st_self s) = None
  | Running => False
  end.
Proof.
  unfold attr. destruct (proj (st_self s)); intros H;
    by injection H as <- <-.
Qed.

Lemma ext_inv {A} (oracle : World -> trace -> result A) c w s s' o :
  ext oracle c w s = (s', o) →
  s' = emit c s ∧
  match o with
  | Normal a => oracle w (st_trace s ++ [c]) = Ret a
  | Raised e => oracle w (st_trace s ++ [c]) = Exc e
  | Running => False
  end.
Proof.
  unfold ext. simpl. destruct (oracle w _); intros H;
    by injection H as <- <-.
Qed.

Lemma hook_inv c w s s' o :
  hook c w s = (s', o) →
  s' = State (st_trace s ++ [c])
             (w_hook w (st_trace s ++ [c]) (st_self s)).1 (st_step s) ∧
  match o with
  | Normal _ => (w_hook w (st_trace s ++ [c]) (st_self s)).2 = Ret tt
  | Raised e => (w_hook w (st_trace s ++ [c]) (st_self s)).2 = Exc e
  | Running => False
  end.
Proof.
  unfold hook. simpl. destruct (w_hook w _ _) as [o' [[]|e]]; intros H;
    by injection H as <- <-.
Qed.

(** Inverting a run statement by statement. *)
Ltac inv_run :=
  repeat
    (simpl in *;
     match goal with
     | H : @mbind _ _ _ _ _ _ _ _ = (_, _) |- _ =>
         apply bind_inv in H;
         destruct H as [(? & ? & ? & H) | [(? & H & ?) | (H & ?)]]
     | H : ret _ _ _ = (_, _) |- _ => apply ret_inv in H; destruct H
     | H : raise _ _ _ = (_, _) |- _ => apply raise_inv in H; destruct H
     | H : running _ _ = (_, _) |- _ => apply running_inv in H; destruct H
     | H : print _ _ _ = (_, _) |- _ => apply print_inv in H; destruct H
     | H : assign _ _ _ _ = (_, _) |- _ => apply assign_inv in H; destruct H
     | H : get_step _ _ = (_, _) |- _ => apply get_step_inv in H; destruct H
     | H : set_step _ _ _ = (_, _) |- _ => apply set_step_inv in H; destruct H
     | H : attr _ _ _ = (_, _) |- _ => apply attr_inv in H; destruct H
     | H : ext _ _ _ _ = (_, _) |- _ => apply ext_inv in H; destruct H
     | H : hook _ _ _ = (_, _) |- _ => apply hook_inv in H; destruct H
     | H : (if ?b then _ else _) _ _ = (_, _) |- _ => destruct b eqn:?
     | H : _ ∧ _ |- _ => destruct H
     | H : False |- _ => destruct H
     | x : unit |- _ => destruct x
     | H : ?x = ?x |- _ => clear H
     | H : Normal _ = Normal _ |- _ => injection H as H
     | H : Raised _ = Raised _ |- _ => injection H as H
     | H : Normal _ = Raised _ |- _ => discriminate H
     | H : Normal _ = Running |- _ => discriminate H
     | H : Raised _ = Normal _ |- _ => discriminate H
     | H : Raised _ = Running |- _ => discriminate H
     | H : Running = Normal _ |- _ => discriminate H
     | H : Running = Raised _ |- _ => discriminate H
     | H : ?x = _ |- _ => is_var x; subst x
     | H : _ = ?x |- _ => is_var x; subst x
     | H1 : ?a = Some ?x, H2 : ?a = Some ?y |- _ =>
         assert (y = x) by congruence; subst y; clear H2
     end);
  unfold emit in *; simpl in *.

(** The outcome of an inverted run is not [Running]. *)
Ltac not_running :=
  let H := fresh in
  intros H; first [discriminate H | subst; simpl in *; contradiction].

(** A property of every call of an explicit segment. *)
Ltac each_call tac :=
  repeat match goal with
         | |- Forall _ (_ :: _) => constructor; [tac|]
         | |- Forall _ [] => constructor
         end.

(** The trace of the goal is the trace of the start and a segment. *)
Ltac segment :=
  first [ exists []; rewrite app_nil_r; split; [reflexivity|]
        | rewrite <- ?app_assoc; simpl; eexists; split; [reflexivity|] ].

(** ** The shape of the traces of [train] *)

Section TrainShape.
Variable w : World.
Variable I : BaseModel -> Prop.
Variable D : path -> Prop.
Hypothesis hooks_keep : ∀ tr o, I o → I (w_hook w tr o).1.
Hypothesis I_dir : ∀ o d, I o → checkpoint_dir o = Some d → D d.
Hypothesis I_frame :
  ∀ o o', I o → checkpoint_dir o' = checkpoint_dir o → I o'.
Variable whole : bool.
Variable resume : bool.
Variables summary_step checkpoint_step : option Z.

Local Abbreviation shape' :=
  (shape D whole resume summary_step checkpoint_step).
Local Abbreviation emits' := (emits w I shape').

Lemma save_shape (sess : handle) s s' o :
  I (st_self s) → save sess w s = (s', o) →
  st_self s' = st_self s ∧ st_step s' = st_step s ∧
  ∃ blk, st_trace s' = st_trace s ++ blk ∧ save_calls D blk.
Proof.
  intros Hs Hrun. unfold save in Hrun. inv_run.
  all: split; [done|]; split; [done|]; segment; constructor; eauto.
Qed.


Lemma load_shape (sess : handle) s s' o :
  I (st_self s) → load sess None w s = (s', o) →
  st_self s' = st_self s ∧ st_step s' = st_step s ∧
  ∃ blk, st_trace s' = st_trace s ++ blk ∧ load_calls D blk.
Proof.
  intros Hs Hrun. unfold load in Hrun. inv_run.
  all: split; [done|]; split; [done|]; segment; constructor; eauto.
Qed.

(** A block made of a [print] and a [save]. *)
Lemma emits_marked_save (m : message) (sess : handle) :
  (∀ blk, save_calls D blk → shape' (Print m :: blk)) →
  emits' (print m;; save sess) (fun _ => True).
Proof.
  intros Hblk s s' o Hs Hrun.
  apply bind_inv in Hrun as [(s1 & [] & Hp & Hsave) | [(e & Hp & _) | [Hp _]]];
    apply print_inv in Hp as [Hp1 Hp2]; try discriminate; subst s1.
  destruct (save_shape sess (emit (Print m) s) _ _ Hs Hsave)
    as (Hself & _ & blk & Htr & Hc).
  split; [by rewrite Hself|]. split; [|by destruct o].
  exists (Print m :: blk). split; [|auto].
  rewrite Htr. simpl. by rewrite <- app_assoc.
Qed.

Lemma emits_summary_due (step : Z) :
  emits' (summary_due step summary_step)
         (fun b => b = true → positive_multiple step summary_step).
Proof.
  intros s s' o Hs Hrun. unfold summary_due, py_mod in Hrun.
  assert (s' = s) as ->.
  { destruct summary_step as [[| |]|]; inv_run; done. }
  split; [done|]. split; [exists []; rewrite app_nil_r; split; [done|constructor]|].
  destruct o as [b| |]; [|done..]. intros ->.
  destruct summary_step as [k|]; [|inv_run; done].
  exists k. case_bool_decide; [|inv_run; done].
  assert (k ≠ 0 → step `mod` k = 0 → (k | step)) as Hdiv.
  { intros ? ?. by apply Z.mod_divide. }
  destruct k; inv_run; try done;
    case_bool_decide; try done; (split; [done|]; split; [done|]);
    apply Hdiv; done.
Qed.

Lemma emits_checkpoint_due (step : Z) :
  emits' (checkpoint_due step checkpoint_step)
         (fun b => b = true → positive_multiple step checkpoint_step).
Proof.
  intros s s' o Hs Hrun. unfold checkpoint_due, py_mod in Hrun.
  assert (s' = s) as ->.
  { destruct checkpoint_step as [[| |]|]; inv_run; done. }
  split; [done|]. split; [exists []; rewrite app_nil_r; split; [done|constructor]|].
  destruct o as [b| |]; [|done..]. intros ->.
  destruct checkpoint_step as [k|]; [|inv_run; done].
  exists k. case_bool_decide; [|inv_run; done].
  assert (k ≠ 0 → step `mod` k = 0 → (k | step)) as Hdiv.
  { intros ? ?. by apply Z.mod_divide. }
  destruct k; inv_run; try done;
    case_bool_decide; try done; (split; [done|]; split; [done|]);
    apply Hdiv; done.
Qed.

(** Walking through a program with the rules of [emits]; what is left
    are the conditions on the calls that are not [plain]. *)
Ltac walk :=
  lazymatch goal with
  | |- emits _ _ _ (print _;; save _) _ => apply emits_marked_save
  | |- emits _ _ _ (mbind _ _) _ =>
      eapply emits_bind; [apply shape_app | walk | intros ? ?; walk]
  | |- emits _ _ _ (ext _ _) _ =>
      apply emits_ext; try (apply shape_plain; reflexivity)
  | |- emits _ _ _ (hook _) _ =>
      apply emits_hook;
      [exact hooks_keep | try (apply shape_plain; reflexivity)]
  | |- emits _ _ _ (print _) _ =>
      apply emits_print; try (apply shape_plain; reflexivity)
  | |- emits _ _ _ (attr _) _ => apply emits_attr; apply shape_nil
  | |- emits _ _ _ (assign _ _) _ =>
      apply emits_assign;
      [apply shape_nil
      | let o := fresh "o" in let Ho := fresh "Ho" in
        intros o Ho; apply (I_frame o); [exact Ho | reflexivity]]
  | |- emits _ _ _ get_step _ => apply emits_get_step; apply shape_nil
  | |- emits _ _ _ (set_step _) _ => apply emits_set_step; apply shape_nil
  | |- emits _ _ _ (ret _) _ => apply emits_ret; [apply shape_nil | done]
  | |- emits _ _ _ (raise _) _ => apply emits_raise; apply shape_nil
  | |- emits _ _ _ running _ => apply emits_running; apply shape_nil
  | |- emits _ _ _ (summary_due _ _) _ => apply emits_summary_due
  | |- emits _ _ _ (checkpoint_due _ _) _ => apply emits_checkpoint_due
  | |- emits _ _ _ (if ?b then _ else _) _ => destruct b; walk
  | |- _ => idtac
  end.

Lemma emits__train_step (sess : handle) :
  emits' (_train_step sess) (fun _ => True).
Proof. unfold _train_step. walk. Qed.

Lemma emits_train_iteration (sess : handle) :
  emits' (train_iteration sess summary_step checkpoint_step)
         (fun _ => True).
Proof.
  unfold train_iteration, log_summary, periodic_checkpoint.
  eapply emits_bind; [apply shape_app | apply emits__train_step |].
  intros step _. walk.
  all: try (eapply shape_summary; [reflexivity | auto]).
  intros blk Hblk. apply shape_checkpoint; auto.
Qed.

Lemma emits_train_loop (fuel : nat) (sess coord : handle) :
  emits' (train_loop fuel sess coord summary_step checkpoint_step)
         (fun _ => True).
Proof.
  induction fuel as [|fuel IH]; simpl; walk.
  - apply emits_train_iteration.
  - apply IH.
Qed.

Hypothesis at_train : whole = true.

Lemma emits_train_try (fuel : nat) (sess coord : handle) :
  emits' (train_try fuel sess coord summary_step checkpoint_step)
         (fun _ => True).
Proof.
  unfold train_try.
  eapply emits_try_finally with (Qf := fun _ => True);
    [apply shape_app | | unfold train_finally; walk].
  apply emits_try_except; [apply shape_app | apply emits_train_loop |].
  unfold train_handlers.
  constructor; [|constructor; [|constructor]]; simpl.
  - walk. intros blk Hblk. by apply shape_interrupted.
  - walk. intros blk Hblk. by apply shape_completed.
Qed.

Lemma emits_load (sess : handle) :
  resume = true → emits' (load sess None) (fun _ => True).
Proof.
  intros Hres s s' o Hs Hrun.
  destruct (load_shape sess s s' o Hs Hrun) as (Hself & _ & blk & Htr & Hc).
  split; [by rewrite Hself|]. split; [|by destruct o].
  exists blk. split; [done|]. by apply shape_load.
Qed.

Lemma emits_resume (sess : handle) :
  emits' (if resume then load sess None else ret tt) (fun _ => True).
Proof.
  intros s s' o Hs Hrun. destruct (decide (resume = true)) as [E|E].
  - rewrite E in Hrun. by apply (emits_load sess E s s' o).
  - apply not_true_is_false in E. rewrite E in Hrun.
    apply (emits_ret w I shape' (shape_nil _ _ _ _ _) tt (fun _ => True) Logic.I
             s s' o Hs Hrun).
Qed.

Ltac walk_train :=
  lazymatch goal with
  | |- emits _ _ _ (if resume then load _ None else ret tt) _ =>
      apply emits_resume
  | |- emits _ _ _ (train_try _ _ _ _ _) _ => apply emits_train_try
  | |- emits _ _ _ (mbind _ _) _ =>
      eapply emits_bind;
      [apply shape_app | walk_train | intros ? ?; walk_train]
  | |- _ => walk
  end.

Lemma emits_train_session_rest (fuel : nat) (sess : handle) :
  emits' (train_session_rest fuel resume summary_step checkpoint_step sess)
         (fun _ => True).
Proof. unfold train_session_rest. walk_train. Qed.

Lemma emits_train_session (fuel : nat) (sess : handle) :
  emits' (train_session fuel resume summary_step checkpoint_step sess)
         (fun _ => True).
Proof.
  unfold train_session. walk_train; [|apply emits_train_session_rest].
  match goal with H : _ ?d |- shape' [FileWriterOpen ?d] =>
    destruct H as (o & Ho & Hd) end.
  apply shape_writer; eauto.
Qed.

Lemma emits_train (fuel : nat) (learning_rate : pyval) :
  emits' (train fuel learning_rate resume summary_step checkpoint_step)
         (fun _ => True).
Proof.
  unfold train. walk_train.
  eapply emits_try_finally with (Qf := fun _ => True);
    [apply shape_app | apply emits_train_session | walk].
Qed.

End TrainShape.

(** ** What the shape of a trace says about its calls *)

Section ShapeFacts.
Variable D : path -> Prop.
Variable whole : bool.
Variable resume : bool.
Variables summary_step checkpoint_step : option Z.

Local Abbreviation shape' :=
  (shape D whole resume summary_step checkpoint_step).
Local Abbreviation allowed' :=
  (allowed D whole resume summary_step checkpoint_step).

Lemma save_calls_allowed blk : save_calls D blk → Forall allowed' blk.
Proof.
  intros H. destruct H; repeat constructor; simpl; try done;
    intros; simplify_eq; eauto.
Qed.

Lemma load_calls_allowed blk :
  whole = true → resume = true → load_calls D blk → Forall allowed' blk.
Proof.
  intros Hw Hr H. destruct H; repeat constructor; simpl; try done;
    intros; simplify_eq; eauto.
Qed.

Lemma shape_allowed seg : shape' seg → Forall allowed' seg.
Proof.
  induction 1 as [|a b _ IHa _ IHb|c Hc|c st Hc Hst|st blk Hst Hblk|d Hw Hd
                  |blk Hw Hr Hblk|st blk Hw Hblk|st blk Hw Hblk].
  - constructor.
  - by apply Forall_app.
  - constructor; [|constructor].
    destruct c as [[]| | | | | | | | | | | | | | | | | | | | | | | | | | | | | | |];
      repeat split; simpl in *; try done; intros; simplify_eq.
  - constructor; [|constructor].
    destruct c as [[]| | | | | | | | | | | | | | | | | | | | | | | | | | | | | | |];
      repeat split; simpl in *; try done; intros; simplify_eq; done.
  - constructor; [|by apply save_calls_allowed].
    repeat split; simpl; try done; intros; simplify_eq; done.
  - constructor; [|constructor].
    repeat split; simpl; try done; intros; simplify_eq; done.
  - by apply load_calls_allowed.
  - constructor; [|by apply save_calls_allowed].
    repeat split; simpl; try done; intros; simplify_eq; done.
  - constructor; [|by apply save_calls_allowed].
    repeat split; simpl; try done; intros; simplify_eq; done.
Qed.

Lemma save_calls_are_save_calls blk :
  save_calls D blk → Forall (fun c => is_save_call c = true) blk.
Proof. intros H. destruct H; repeat constructor. Qed.

Lemma load_calls_no_save_call blk :
  load_calls D blk → Forall (fun c => is_save_call c = false) blk.
Proof. intros H. destruct H; repeat constructor. Qed.

Lemma marked_saves_single c :
  is_save_call c = false → marked_saves whole checkpoint_step [c].
Proof.
  intros Hc pre c' post Heq Hsave.
  destruct pre as [|? [|? ?]]; simplify_eq/=. congruence.
Qed.

Lemma marked_saves_block m blk :
  save_marker whole checkpoint_step m → save_calls D blk →
  marked_saves whole checkpoint_step (Print m :: blk).
Proof.
  intros Hm Hblk pre c post Heq Hsave.
  destruct pre as [|c0 pre]; simplify_eq/=.
  exists [], m, pre. split; [done|]. split; [|done].
  apply save_calls_are_save_calls in Hblk.
  by apply Forall_app in Hblk as [? _].
Qed.

Lemma shape_marked_saves seg :
  shape' seg → marked_saves whole checkpoint_step seg.
Proof.
  induction 1 as [|a b _ IHa _ IHb|c Hc|c st Hc Hst|st blk Hst Hblk|d Hw Hd
                  |blk Hw Hr Hblk|st blk Hw Hblk|st blk Hw Hblk].
  - intros [|? ?] ? ? ?; discriminate.
  - intros pre c post Heq Hsave.
    apply app_eq_app in Heq as [l [[-> Hl]|[-> Hl]]].
    + destruct l as [|c' l]; simpl in Hl.
      * destruct (IHb [] c post) as (pre0 & m & blk0 & Hpre & _); [done..|].
        by destruct pre0.
      * injection Hl as <- ->. by apply (IHa pre c l).
    + destruct (IHb l c post Hl Hsave) as (pre0 & m & blk0 & -> & ? & ?).
      exists (a ++ pre0), m, blk0. by rewrite <- app_assoc.
  - apply marked_saves_single. by destruct c as [[]| | | | | | | | | | | | | | | | | | | | | | | | | | | | | | |].
  - apply marked_saves_single. by destruct c as [[]| | | | | | | | | | | | | | | | | | | | | | | | | | | | | | |].
  - by apply marked_saves_block.
  - by apply marked_saves_single.
  - intros pre c post -> Hsave. apply load_calls_no_save_call in Hblk.
    apply Forall_app in Hblk as [_ Hblk]. apply Forall_cons in Hblk as [Hc _].
    congruence.
  - by apply marked_saves_block.
  - by apply marked_saves_block.
Qed.

End ShapeFacts.

(** ** The class declarations *)

(** C3, as amended: [BaseModel] declares exactly five abstract extension
    points, [_setup_prediction], [_setup_loss], [_setup_optimizer],
    [_tofetch] and [_summary_step]; [load], [save] and [train] are concrete
    methods. *)
Theorem BaseModel_extension_points :
  abstract_methods BaseModel_methods =
    ["_setup_prediction"; "_setup_loss"; "_setup_optimizer"; "_tofetch";
     "_summary_step"] ∧
  length (abstract_methods BaseModel_methods) = 5%nat ∧
  "load" ∈ concrete_methods BaseModel_methods ∧
  "save" ∈ concrete_methods BaseModel_methods ∧
  "train" ∈ concrete_methods BaseModel_methods.
Proof.
  split; [reflexivity|]. split; [reflexivity|].
  unfold concrete_methods; simpl. repeat split; repeat constructor.
Qed.

(** C3, as stated, fails: the abstract extension points are not four. *)
Lemma BaseModel_extension_points_not_four :
  length (abstract_methods BaseModel_methods) ≠ 4%nat.
Proof. simpl. discriminate. Qed.

(** C5, as amended: [Config] is a plain data holder whose only method is
    [__init__]; the constructor sets exactly five attributes:
    [learning_rate] (1e-3), [display_step] (50), [n_threads] (2),
    [regularization] (1e-3) and [n_epochs] ([None]). *)
Theorem Config_sets_five_fields :
  m_name <$> Config.methods = ["__init__"] ∧
  Config.new =
    list_to_map [("learning_rate", PyFloat 1 (-3)); ("display_step", PyInt 50);
                 ("n_threads", PyInt 2); ("regularization", PyFloat 1 (-3));
                 ("n_epochs", PyNone)] ∧
  dom Config.new =
    ({["learning_rate"; "display_step"; "n_threads"; "regularization";
       "n_epochs"]} : gset string) ∧
  (∀ self : gmap string pyval,
     dom (Config.__init__ self) = dom Config.new ∪ dom self).
Proof.
  split; [reflexivity|]. split; [reflexivity|]. split.
  - unfold Config.new, Config.__init__. rewrite !dom_insert_L, dom_empty_L.
    apply set_eq. intros x.
    rewrite !elem_of_union, !elem_of_singleton, elem_of_empty. tauto.
  - intros self. unfold Config.new, Config.__init__.
    rewrite !dom_insert_L, dom_empty_L.
    apply set_eq. intros x.
    rewrite !elem_of_union, !elem_of_singleton, elem_of_empty. tauto.
Qed.

(** C5, as stated, fails: the constructor also sets [display_step], which
    is not among the four fields of the claim. *)
Lemma Config_not_four_fields :
  dom Config.new ≠
    ({["learning_rate"; "n_epochs"; "n_threads"; "regularization"]}
       : gset string) ∧
  Config.new !! "display_step" = Some (PyInt 50).
Proof.
  split; [|reflexivity].
  intros Heq. assert ("display_step" ∈ dom Config.new) as Hin.
  { apply elem_of_dom. by exists (PyInt 50). }
  rewrite Heq in Hin.
  rewrite !elem_of_union, !elem_of_singleton in Hin.
  destruct Hin as [[[?|?]|?]|?]; discriminate.
Qed.

(** ** The constructor *)

(** C9: [reuse] has no effect.  Two constructions that differ in [reuse]
    only make the same calls and leave the same object (all its attributes)
    or the same exception, in every world and after every history; the same
    holds of [__init__] run on any object.  The object a construction
    leaves is made of the other three arguments, the two handles the
    framework returns and what the prediction hook does to it. *)
Theorem reuse_has_no_effect (inputs_ : handle) (checkpoint_dir_ : path)
    (is_training_ reuse1 reuse2 : bool) (w : World) :
  (∀ history,
     construct inputs_ checkpoint_dir_ is_training_ reuse1 w history =
     construct inputs_ checkpoint_dir_ is_training_ reuse2 w history) ∧
  (∀ s,
     __init__ inputs_ checkpoint_dir_ is_training_ reuse1 w s =
     __init__ inputs_ checkpoint_dir_ is_training_ reuse2 w s) ∧
  (∀ history s,
     construct inputs_ checkpoint_dir_ is_training_ reuse1 w history =
       (s, Normal tt) →
     ∃ gs sv,
       w_handle w (history ++ [TfVariable (PyInt 0) "global_step"]) = Ret gs ∧
       st_self s =
         set_saver sv
           (w_hook w
              (history ++ [TfVariable (PyInt 0) "global_step";
                           Hook_setup_prediction])
              (set_global_step gs
                 (set_eval_summaries []
                    (set_summaries []
                       (set_layers ∅
                          (set_is_training is_training_
                             (set_checkpoint_dir checkpoint_dir_
                                (set_inputs inputs_ blank)))))))).1).
Proof.
  split; [reflexivity|]. split; [reflexivity|].
  intros history s Hrun. unfold construct, __init__ in Hrun. inv_run.
  rewrite <- !app_assoc in *. simpl in *. eauto.
Qed.

(** C9 at work: the construction with [reuse=True] in the world [endless]
    leaves the object the construction with [reuse=False] leaves. *)
Lemma reuse_has_no_effect_witness :
  construct 0%nat "ckpt" true true endless [] =
    construct 0%nat "ckpt" true false endless [] ∧
  ∃ gs sv,
    w_handle endless ([] ++ [TfVariable (PyInt 0) "global_step"]) = Ret gs ∧
    st_self (construct 0%nat "ckpt" true true endless []).1 =
      set_saver sv
        (w_hook endless
           ([] ++ [TfVariable (PyInt 0) "global_step"; Hook_setup_prediction])
           (set_global_step gs
              (set_eval_summaries []
                 (set_summaries []
                    (set_layers ∅
                       (set_is_training true
                          (set_checkpoint_dir "ckpt"
                             (set_inputs 0%nat blank)))))))).1.
Proof.
  split.
  - apply (proj1 (reuse_has_no_effect 0%nat "ckpt" true true false endless)).
  - apply (proj2 (proj2 (reuse_has_no_effect 0%nat "ckpt" true true false
                           endless)) []).
    vm_compute. reflexivity.
Defined.

(** ** The statements of the loop, one by one *)

Arguments _train_step : simpl never.
Arguments save : simpl never.
Arguments load : simpl never.
Arguments summary_due : simpl never.
Arguments checkpoint_due : simpl never.
Arguments log_summary : simpl never.
Arguments periodic_checkpoint : simpl never.
Arguments train_iteration : simpl never.
Arguments train_try : simpl never.
Arguments train_finally : simpl never.
Arguments train_session : simpl never.
Arguments train_session_rest : simpl never.

Lemma summary_due_run (step : Z) (every : option Z) w s :
  summary_due step every w s = (s, modulus_test step every).
Proof.
  unfold summary_due, modulus_test, py_mod.
  case_bool_decide; [|reflexivity]. by destruct every as [[| |]|].
Qed.

Lemma checkpoint_due_run (step : Z) (every : option Z) w s :
  checkpoint_due step every w s =
  (s, match every with None => Normal false | _ => modulus_test step every end).
Proof.
  unfold checkpoint_due, modulus_test, py_mod.
  destruct every as [k|]; [|reflexivity].
  case_bool_decide; [|reflexivity]. by destruct k.
Qed.

Lemma modulus_test_true (step : Z) (every : option Z) :
  modulus_test step every = Normal true ↔ positive_multiple step every.
Proof.
  unfold modulus_test, positive_multiple. split.
  - case_bool_decide; [|discriminate].
    destruct every as [k|]; [|discriminate]. intros Hk. exists k.
    assert (k ≠ 0 ∧ step `mod` k = 0) as [Hk0 Hmod].
    { destruct k; [discriminate| |]; injection Hk as Hk;
        apply bool_decide_eq_true in Hk; done. }
    split; [done|]. split; [done|]. by apply Z.mod_divide.
  - intros (k & -> & Hpos & Hdiv).
    rewrite bool_decide_eq_true_2 by done.
    assert (k ≠ 0) as Hk0. { intros ->. apply Z.divide_0_l in Hdiv. lia. }
    assert (step `mod` k = 0) as Hmod by by apply Z.mod_divide.
    destruct k; [done| |]; by rewrite bool_decide_eq_true_2.
Qed.

Lemma modulus_test_none_raises (step : Z) :
  0 < step → modulus_test step None = Raised TypeError.
Proof. intros H. unfold modulus_test. by rewrite bool_decide_eq_true_2. Qed.

Lemma modulus_test_not_positive (step : Z) (every : option Z) :
  (step ≤ 0)%Z → modulus_test step every = Normal false.
Proof.
  intros H. unfold modulus_test. rewrite bool_decide_eq_false_2; [done|lia].
Qed.

Lemma positive_multiple_positive (step : Z) (every : option Z) :
  positive_multiple step every → 0 < step.
Proof. by intros (k & _ & H & _). Qed.

Lemma positive_multiple_None (step : Z) : ¬ positive_multiple step None.
Proof. by intros (k & H & _). Qed.

Lemma _train_step_run (sess : handle) w s s' o :
  _train_step sess w s = (s', o) →
  st_step s' = st_step s ∧
  ∃ seg, st_trace s' = st_trace s ++ seg ∧
    Forall (fun c => c ∈ train_step_calls sess) seg ∧
    (∀ step, o = Normal step → seg = train_step_calls sess).
Proof.
  intros Hrun. unfold _train_step in Hrun. inv_run.
  all: split; [done|]; segment.
  all: split; [|intros; by simplify_eq].
  all: unfold train_step_calls; repeat constructor.
Qed.

(** A [save] that returns has checked the directory, made it when it was
    not there, and written the checkpoint under the prefix
    [checkpoint_dir/model]. *)
Lemma save_returns (sess : handle) w s s' :
  save sess w s = (s', Normal tt) →
  ∃ d sv present,
    checkpoint_dir (st_self s) = Some d ∧ saver (st_self s) = Some sv ∧
    w_bool w (st_trace s ++ [PathExists d]) = Ret present ∧
    st_trace s' =
      st_trace s ++ PathExists d :: (if present then [] else [MakeDirs d]) ++
                    [SaverSave sv sess (path_join d "model")].
Proof.
  intros Hrun. unfold save in Hrun. inv_run.
  all: match goal with
       | H : w_bool _ _ = Ret ?b, Hd : checkpoint_dir _ = Some ?d,
         Hs : saver _ = Some ?sv |- _ =>
           exists d, sv, b; repeat split; try done;
           destruct b; try done; by rewrite <- ?app_assoc
       end.
Qed.

Lemma save_not_running (sess : handle) w s s' : save sess w s ≠ (s', Running).
Proof. intros Hrun. unfold save in Hrun. inv_run. Qed.

Lemma log_summary_run (step : Z) (every : option Z) w s s' o :
  log_summary step every w s = (s', o) →
  o ≠ Running ∧ st_step s' = st_step s ∧
  ∃ seg, st_trace s' = st_trace s ++ seg ∧
    Forall (fun c => summary_call c = Some step ∨ c = SetPrintoptions) seg ∧
    (seg ≠ [] → positive_multiple step every) ∧
    (∀ r, o = Normal r → positive_multiple step every →
          ∃ wr, AddSummary wr step ∈ seg) ∧
    (0 < step → every = None → o = Raised TypeError).
Proof.
  intros Hrun. unfold log_summary in Hrun.
  apply bind_inv in Hrun as [(s1 & log & Hdue & Hrun) | [(e & Hdue & ->) | [Hdue ->]]];
    rewrite summary_due_run in Hdue; injection Hdue as <- Hdue.
  - destruct log.
    + apply modulus_test_true in Hdue.
      inv_run.
      all: split; [not_running|].
      all: split; [done|]; segment.
      all: split; [each_call ltac:(simpl; auto)|].
      all: split; [done|]. all: split; [|intros ? ->; by destruct Hdue as (? & ? & _)].
      all: intros; simplify_eq.
      eexists. repeat constructor.
    + inv_run. split; [done|]. split; [done|]. exists []. rewrite app_nil_r.
      split; [done|]. split; [constructor|]. split; [done|].
      split.
      * intros _ _ Hpm. apply modulus_test_true in Hpm. congruence.
      * intros Hpos ->. rewrite modulus_test_none_raises in Hdue; done.
  - split; [done|]. split; [done|]. exists []. rewrite app_nil_r.
    split; [done|]. split; [constructor|]. split; [done|]. split; [done|].
    intros Hpos ->. rewrite modulus_test_none_raises in Hdue by done.
    by injection Hdue as <-.
  - unfold modulus_test in Hdue. case_bool_decide; [|done].
    by destruct every as [[| |]|].
Qed.

Lemma periodic_checkpoint_run (sess : handle) (step : Z) (every : option Z)
    w s s' o :
  periodic_checkpoint sess step every w s = (s', o) →
  o ≠ Running ∧ st_step s' = st_step s ∧ st_self s' = st_self s ∧
  ∃ seg, st_trace s' = st_trace s ++ seg ∧
    (seg = [] ∨
     ∃ blk, seg = Print (MsgSavingCheckpoint step) :: blk ∧
            save_calls (fun d => checkpoint_dir (st_self s) = Some d) blk) ∧
    (seg ≠ [] → positive_multiple step every) ∧
    (∀ r, o = Normal r → positive_multiple step every →
          ∃ sv d, checkpoint_dir (st_self s) = Some d ∧
                  SaverSave sv sess (path_join d "model") ∈ seg).
Proof.
  intros Hrun. unfold periodic_checkpoint in Hrun.
  assert (∀ b, match every with
               | None => Normal false
               | _ => modulus_test step every
               end = Normal b → (b = true ↔ positive_multiple step every))
    as Hiff.
  { intros b Hb. rewrite <- modulus_test_true. destruct every as [k|].
    - rewrite Hb. split; congruence.
    - injection Hb as <-. split; [done|].
      intros H. apply modulus_test_true in H. by destruct H as (? & ? & _). }
  apply bind_inv in Hrun as [(s1 & ckpt & Hdue & Hrun) | [(e & Hdue & ->) | [Hdue ->]]];
    rewrite checkpoint_due_run in Hdue; injection Hdue as <- Hdue.
  - apply Hiff in Hdue. destruct ckpt.
    + assert (positive_multiple step every) as Hpm by by apply Hdue.
      apply bind_inv in Hrun as [(s1 & [] & Hp & Hsave) | [(e & Hp & _) | [Hp _]]];
        apply print_inv in Hp as [-> Hp]; try discriminate.
      destruct (save_shape w (fun o => o = st_self s)
                  (fun d => checkpoint_dir (st_self s) = Some d)
                  ltac:(by intros ? ? ->) sess
                  (emit (Print (MsgSavingCheckpoint step)) s) _ _ eq_refl Hsave)
        as (Hself & Hstep & blk & Htr & Hblk).
      split. { intros ->. by apply save_not_running in Hsave. }
      split; [done|]. split; [done|].
      exists (Print (MsgSavingCheckpoint step) :: blk).
      split; [rewrite Htr; simpl; by rewrite <- app_assoc|].
      split; [right; eauto|]. split; [done|].
      intros [] -> _. apply save_returns in Hsave as (d & sv & present & Hd & _ & _ & Htr').
      exists sv, d. split; [done|].
      simpl in Htr, Htr'. rewrite Htr in Htr'.
      apply app_inv_head in Htr'. rewrite Htr'.
      rewrite !elem_of_cons, elem_of_app, list_elem_of_singleton. auto.
    + inv_run. split; [done|]. split; [done|]. split; [done|].
      exists []. rewrite app_nil_r.
      split; [done|]. split; [by left|]. split; [done|].
      intros _ _ Hpm. apply Hdue in Hpm. discriminate.
  - split; [done|]. split; [done|]. split; [done|]. exists []. rewrite app_nil_r.
    split; [done|]. split; [by left|]. done.
  - destruct every as [[| |]|]; try done; unfold modulus_test in Hdue;
      case_bool_decide; done.
Qed.

(** One iteration: either [_train_step] raises, or it returns the step and
    the two [if] statements follow. *)
Lemma train_iteration_run (sess : handle) (ss cs : option Z) w s s' o :
  train_iteration sess ss cs w s = (s', o) →
  (∃ e seg, _train_step sess w s = (s', Raised e) ∧ o = Raised e ∧
            st_step s' = st_step s ∧ st_trace s' = st_trace s ++ seg ∧
            Forall (fun c => c ∈ train_step_calls sess) seg) ∨
  (∃ s1 seg1 seg2,
     _train_step sess w s = (s1, Normal (st_step s')) ∧ o ≠ Running ∧
     st_trace s' = st_trace s ++ train_step_calls sess ++ seg1 ++ seg2 ∧
     Forall (fun c => summary_call c = Some (st_step s') ∨ c = SetPrintoptions)
            seg1 ∧
     (seg1 ≠ [] → positive_multiple (st_step s') ss) ∧
     (seg2 = [] ∨
      ∃ blk, seg2 = Print (MsgSavingCheckpoint (st_step s')) :: blk ∧
             Forall (fun c => is_save_call c = true) blk) ∧
     (seg2 ≠ [] → positive_multiple (st_step s') cs) ∧
     (∀ r, o = Normal r →
        (positive_multiple (st_step s') ss →
         ∃ wr, AddSummary wr (st_step s') ∈ seg1) ∧
        (positive_multiple (st_step s') cs →
         ∃ sv d, checkpoint_dir (st_self s') = Some d ∧
                 SaverSave sv sess (path_join d "model") ∈ seg2)) ∧
     (0 < st_step s' → ss = None →
      o = Raised TypeError ∧ seg1 = [] ∧ seg2 = [])).
Proof.
  intros Hrun. unfold train_iteration in Hrun.
  apply bind_inv in Hrun as [(s1 & st & Hts & Hrun) | [(e & Hts & ->) | [Hts ->]]].
  2:{ left. destruct (_train_step_run _ _ _ _ _ Hts) as (? & seg & ? & ? & _).
      exists e, seg. done. }
  2:{ exfalso. unfold _train_step in Hts. inv_run. }
  right. exists s1.
  destruct (_train_step_run _ _ _ _ _ Hts) as (_ & seg0 & Htr0 & _ & Hseg0).
  rewrite (Hseg0 st eq_refl) in Htr0. clear Hseg0.
  apply bind_inv in Hrun as [(s2 & [] & Hset & Hrun) | [(e & Hset & _) | [Hset _]]];
    apply set_step_inv in Hset as [-> Hset]; try discriminate.
  apply bind_inv in Hrun as [(s3 & [] & Hlog & Hck) | [(e & Hlog & ->) | [Hlog ->]]].
  - destruct (log_summary_run _ _ _ _ _ _ Hlog)
      as (_ & Hst3 & seg1 & Htr1 & Hall1 & Hne1 & Hadd & Hnone).
    destruct (periodic_checkpoint_run _ _ _ _ _ _ _ Hck)
      as (Hnr & Hst' & Hself' & seg2 & Htr2 & Hblk & Hne2 & Hsave).
    simpl in *. assert (st_step s' = st) as Est by congruence. rewrite Est.
    exists seg1, seg2. split; [done|]. split; [done|].
    split; [by rewrite Htr2, Htr1, Htr0, <- !app_assoc|].
    split; [done|]. split; [done|]. split.
    { destruct Hblk as [?|(blk & -> & Hblk)]; [by left|right].
      exists blk. split; [done|]. destruct Hblk; each_call idtac; done. }
    split; [done|]. split.
    { intros [] ->. split; [by apply (Hadd tt)|].
      intros Hpm. rewrite Hself'. by apply (Hsave tt). }
    intros Hpos Hss. by specialize (Hnone Hpos Hss).
  - destruct (log_summary_run _ _ _ _ _ _ Hlog)
      as (_ & Hst3 & seg1 & Htr1 & Hall1 & Hne1 & Hadd & Hnone).
    simpl in *. rewrite Hst3.
    exists seg1, []. split; [done|]. split; [done|].
    split; [by rewrite Htr1, Htr0, app_nil_r, <- !app_assoc|].
    split; [done|]. split; [done|]. split; [by left|]. split; [done|].
    split; [done|]. intros Hpos Hss. split; [by apply Hnone|]. split; [|done].
    destruct seg1; [done|]. destruct Hne1 as (? & ? & _); [done|]. congruence.
  - exfalso. by destruct (log_summary_run _ _ _ _ _ _ Hlog) as (? & _).
Qed.

(** ** The calls of whole runs *)

Lemma train_loop_calls w fuel sess coord ss cs s s' o :
  train_loop fuel sess coord ss cs w s = (s', o) →
  ∃ seg, st_trace s' = st_trace s ++ seg ∧
    Forall (allowed (fun _ => True) false false ss cs) seg ∧
    marked_saves false cs seg.
Proof.
  intros Hrun.
  destruct (emits_train_loop w (fun _ => True) (fun _ => True)
              ltac:(done) ltac:(done) false false ss cs fuel sess coord
              s s' o Logic.I Hrun) as (_ & (seg & Htr & Hshape) & _).
  exists seg. split; [done|]. split.
  - by apply shape_allowed.
  - by eapply shape_marked_saves.
Qed.

Lemma train_calls w fuel lr resume ss cs s s' o :
  train fuel lr resume ss cs w s = (s', o) →
  ∃ seg, st_trace s' = st_trace s ++ seg ∧
    Forall (allowed (fun _ => True) true resume ss cs) seg ∧
    marked_saves true cs seg.
Proof.
  intros Hrun.
  destruct (emits_train w (fun _ => True) (fun _ => True)
              ltac:(done) ltac:(done) ltac:(done) true resume ss cs eq_refl
              fuel lr s s' o Logic.I Hrun) as (_ & (seg & Htr & Hshape) & _).
  exists seg. split; [done|]. split.
  - by apply shape_allowed.
  - by eapply shape_marked_saves.
Qed.

Lemma train_calls_dir w fuel lr resume ss cs s s' o d :
  keeps_checkpoint_dir w → checkpoint_dir (st_self s) = Some d →
  train fuel lr resume ss cs w s = (s', o) →
  checkpoint_dir (st_self s') = Some d ∧
  ∃ seg, st_trace s' = st_trace s ++ seg ∧
    Forall (allowed (eq d) true resume ss cs) seg ∧
    marked_saves true cs seg.
Proof.
  intros Hkeep Hd Hrun.
  destruct (emits_train w (fun o => checkpoint_dir o = Some d) (eq d)
              ltac:(by intros tr o' Ho; simpl in *; rewrite Hkeep)
              ltac:(by intros o' d' Ho Hd'; simpl in *; congruence)
              ltac:(by intros o1 o2 Ho Heq; simpl in *; congruence)
              true resume ss cs eq_refl
              fuel lr s s' o Hd Hrun) as (Hd' & (seg & Htr & Hshape) & _).
  split; [done|]. exists seg. split; [done|]. split.
  - by apply shape_allowed.
  - by eapply shape_marked_saves.
Qed.

Lemma bind_Normal {A B} (m : M A) (k : A -> M B) w s s1 a :
  m w s = (s1, Normal a) → (x ← m; k x) w s = k a w s1.
Proof. intros H. unfold mbind, M_bind, bind. by rewrite H. Qed.

Lemma bind_Raised {A B} (m : M A) (k : A -> M B) w s s1 e :
  m w s = (s1, Raised e) → (x ← m; k x) w s = (s1, Raised e).
Proof. intros H. unfold mbind, M_bind, bind. by rewrite H. Qed.

Lemma elem_of_segment {A} (x : A) (l : list A) :
  x ∈ l → ∃ pre post, l = pre ++ x :: post.
Proof. apply list_elem_of_split. Qed.

Lemma train_step_calls_plain (sess : handle) (c : call) :
  c ∈ train_step_calls sess →
  summary_call c = None ∧ is_save_call c = false ∧ plain c = true.
Proof.
  unfold train_step_calls. rewrite !elem_of_cons.
  intros [->|[->|[->|[->|H]]]]; try done. by apply elem_of_nil in H.
Qed.

(** ** Summaries *)



(** ** Periodic checkpoints *)



(** ** Step zero and frequencies that are [None] *)

Lemma log_summary_not_positive (step : Z) (every : option Z) w s :
  (step ≤ 0)%Z → log_summary step every w s = (s, Normal tt).
Proof.
  intros H. unfold log_summary.
  by erewrite bind_Normal
    by (by rewrite summary_due_run, modulus_test_not_positive).
Qed.

Lemma periodic_checkpoint_not_due (sess : handle) (step : Z)
    (every : option Z) w s :
  (step ≤ 0)%Z ∨ every = None →
  periodic_checkpoint sess step every w s = (s, Normal tt).
Proof.
  intros H. unfold periodic_checkpoint.
  assert (checkpoint_due step every w s = (s, Normal false)) as Hdue.
  { rewrite checkpoint_due_run. destruct every as [k|]; [|done].
    destruct H as [H|H]; [|done]. by rewrite modulus_test_not_positive. }
  by erewrite bind_Normal by exact Hdue.
Qed.

Lemma TypeError_not_handled (sess : handle) :
  select_handler TypeError (train_handlers sess) = None.
Proof. reflexivity. Qed.

(** With [summary_step=None] the loop cannot hold a positive step without
    having raised [TypeError]. *)
Lemma train_loop_summary_None w fuel sess coord cs s s' o :
  train_loop fuel sess coord None cs w s = (s', o) →
  (st_step s ≤ 0)%Z → 0 < st_step s' → o = Raised TypeError.
Proof.
  revert s. induction fuel as [|fuel IH]; intros s Hrun Hs Hs'; simpl in Hrun.
  - apply running_inv in Hrun as [-> _]. lia.
  - apply bind_inv in Hrun as [(s1 & stop & Hstop & Hrun) | [(e & Hstop & _) | [Hstop _]]];
      apply ext_inv in Hstop as [-> Hstop]; simpl in *; [|lia|done].
    destruct stop.
    { apply ret_inv in Hrun as [-> _]. simpl in Hs'. lia. }
    apply bind_inv in Hrun as [(s2 & [] & Hit & Hrun) | [(e & Hit & ->) | [Hit ->]]].
    + apply (IH s2 Hrun); [|done].
      destruct (train_iteration_run _ _ _ _ _ _ _ Hit)
        as [(e & seg & _ & ? & _)|(s1 & seg1 & seg2 & _ & _ & _ & _ & _ & _ & _ & _ & Hnone)];
        [done|].
      destruct (Z_lt_le_dec 0 (st_step s2)) as [Hpos|?]; [|done].
      by destruct (Hnone Hpos eq_refl).
    + destruct (train_iteration_run _ _ _ _ _ _ _ Hit)
        as [(e' & seg & _ & _ & Hst & _)|(s1 & seg1 & seg2 & _ & _ & _ & _ & _ & _ & _ & _ & Hnone)].
      * simpl in Hst. lia.
      * by destruct (Hnone Hs' eq_refl).
    + destruct (train_iteration_run _ _ _ _ _ _ _ Hit)
        as [(e' & seg & _ & ? & _)|(s1 & seg1 & seg2 & _ & _ & _ & _ & _ & _ & _ & _ & Hnone)];
        [done|].
      by destruct (Hnone Hs' eq_refl).
Qed.

(** C10: at a step that is not positive the iteration does nothing beyond
    the train step, whatever the two frequencies are, and no run of [train]
    adds a summary or announces a periodic checkpoint for such a step; with
    [checkpoint_step=None] the loop never calls [save]; with
    [summary_step=None] the iteration that fetches a positive step raises
    [TypeError] at the modulus test, before any summary or checkpoint, the
    loop cannot go on with a positive step, and no [except] clause of
    [train] catches that error. *)
Theorem step_zero_and_None_frequencies (w : World) :
  (∀ sess ss cs s s1 st,
     _train_step sess w s = (s1, Normal st) → (st ≤ 0)%Z →
     train_iteration sess ss cs w s =
       (State (st_trace s1) (st_self s1) st, Normal tt)) ∧
  (∀ fuel lr resume ss cs s s' o,
     train fuel lr resume ss cs w s = (s', o) →
     ∃ seg, st_trace s' = st_trace s ++ seg ∧
       ∀ st, (st ≤ 0)%Z →
         (∀ wr, AddSummary wr st ∉ seg) ∧
         Print (MsgSavingCheckpoint st) ∉ seg) ∧
  (∀ fuel sess coord ss s s' o,
     train_loop fuel sess coord ss None w s = (s', o) →
     ∃ seg, st_trace s' = st_trace s ++ seg ∧
       Forall (fun c => is_save_call c = false) seg) ∧
  (∀ sess cs s s1 st,
     _train_step sess w s = (s1, Normal st) → 0 < st →
     train_iteration sess None cs w s =
       (State (st_trace s1) (st_self s1) st, Raised TypeError)) ∧
  (∀ fuel sess coord cs s s' o,
     train_loop fuel sess coord None cs w s = (s', o) →
     (st_step s ≤ 0)%Z → 0 < st_step s' → o = Raised TypeError) ∧
  (∀ sess, select_handler TypeError (train_handlers sess) = None).
Proof.
  split; [|split; [|split; [|split; [|split]]]].
  - intros sess ss cs s s1 st Hts Hst. unfold train_iteration.
    erewrite bind_Normal by exact Hts.
    erewrite bind_Normal by reflexivity.
    erewrite bind_Normal by (by apply log_summary_not_positive).
    apply periodic_checkpoint_not_due. by left.
  - intros fuel lr resume ss cs s s' o Hrun.
    destruct (train_calls _ _ _ _ _ _ _ _ _ Hrun) as (seg & Htr & Hall & _).
    exists seg. split; [done|]. intros st Hst. rewrite Forall_forall in Hall.
    split.
    + intros wr Hin. destruct (Hall _ Hin) as (Hsum & _).
      specialize (Hsum st eq_refl).
      apply positive_multiple_positive in Hsum. lia.
    + intros Hin. destruct (Hall _ Hin) as (_ & Hm & _).
      specialize (Hm _ eq_refl eq_refl eq_refl eq_refl). simpl in Hm.
      apply positive_multiple_positive in Hm. lia.
  - intros fuel sess coord ss s s' o Hrun.
    destruct (train_loop_calls _ _ _ _ _ _ _ _ _ Hrun)
      as (seg & Htr & _ & Hmarked).
    exists seg. split; [done|]. apply Forall_forall. intros c Hin.
    destruct (is_save_call c) eqn:Hc; [|done]. exfalso.
    apply elem_of_segment in Hin as (pre & post & ->).
    destruct (Hmarked pre c post eq_refl Hc) as (_ & m & _ & _ & _ & Hm).
    destruct m; simpl in Hm; try done. by apply positive_multiple_None in Hm.
  - intros sess cs s s1 st Hts Hst. unfold train_iteration.
    erewrite bind_Normal by exact Hts.
    erewrite bind_Normal by reflexivity.
    apply bind_Raised. unfold log_summary. apply bind_Raised.
    by rewrite summary_due_run, modulus_test_none_raises.
  - intros fuel sess coord cs s s' o. apply train_loop_summary_None.
  - apply TypeError_not_handled.
Qed.

(** C10 at work: in the world [endless] the first fetch gives step 1, and
    with [summary_step=None] the loop of [train] ends there with
    [TypeError]. *)
Lemma step_zero_and_None_frequencies_witness :
  (train_loop 5 6%nat 12%nat None (Some 3) endless at_loop).2 =
  Raised TypeError.
Proof.
  eapply (proj1 (proj2 (proj2 (proj2 (proj2
            (step_zero_and_None_frequencies endless)))))
            5%nat 6%nat 12%nat (Some 3) at_loop).
  - apply surjective_pairing.
  - vm_compute. discriminate.
  - vm_compute. reflexivity.
Defined.

(** ** Leaving the loop *)

Lemma try_finally_inv {A} (body : M A) (fin : M unit) w s s' o :
  try_finally body fin w s = (s', o) →
  (body w s = (s', Running) ∧ o = Running) ∨
  ∃ s1 o1 o2,
    body w s = (s1, o1) ∧ o1 ≠ Running ∧ fin w s1 = (s', o2) ∧
    o = match o2 with
        | Normal _ => o1
        | Raised e => Raised e
        | Running => Running
        end.
Proof.
  unfold try_finally. destruct (body w s) as [s1 [a|e|]] eqn:Hb; intros H.
  - right. destruct (fin w s1) as [s2 o2] eqn:Hf. exists s1, (Normal a), o2.
    split; [done|]. split; [done|]. destruct o2; by injection H as <- <-.
  - right. destruct (fin w s1) as [s2 o2] eqn:Hf. exists s1, (Raised e), o2.
    split; [done|]. split; [done|]. destruct o2; by injection H as <- <-.
  - left. by injection H as <- <-.
Qed.

Lemma try_except_inv {A} (body : M A) (handlers : list (string * M A))
    w s s' o :
  try_except body handlers w s = (s', o) →
  (body w s = (s', o) ∧
   match o with
   | Raised e => select_handler e handlers = None
   | _ => True
   end) ∨
  ∃ s1 e h,
    body w s = (s1, Raised e) ∧ select_handler e handlers = Some h ∧
    h w s1 = (s', o).
Proof.
  unfold try_except. destruct (body w s) as [s1 [a|e|]] eqn:Hb; intros H.
  - left. by injection H as <- <-.
  - destruct (select_handler e handlers) as [h|] eqn:Hh.
    + right. by exists s1, e, h.
    + left. by injection H as <- <-.
  - left. by injection H as <- <-.
Qed.

(** The handler [train] selects for an exception. *)
Lemma train_handler_selected (sess : handle) (e : exn) (h : M unit) :
  select_handler e (train_handlers sess) = Some h →
  (isinstance e "KeyboardInterrupt" = true ∧
   h = (step ← get_step; print (MsgInterrupted step);; save sess)) ∨
  (isinstance e "KeyboardInterrupt" = false ∧
   isinstance e "tf.errors.OutOfRangeError" = true ∧
   h = (step ← get_step; print (MsgCompleted step);; save sess)).
Proof.
  unfold train_handlers. simpl.
  destruct (isinstance e "KeyboardInterrupt"); [intros [= <-]; by left|].
  destruct (isinstance e "tf.errors.OutOfRangeError"); [|done].
  intros [= <-]. by right.
Qed.

Lemma train_handler_none (sess : handle) (e : exn) :
  select_handler e (train_handlers sess) = None ↔
  isinstance e "KeyboardInterrupt" = false ∧
  isinstance e "tf.errors.OutOfRangeError" = false.
Proof.
  unfold train_handlers. simpl.
  destruct (isinstance e "KeyboardInterrupt"); [split; [done|by intros []]|].
  destruct (isinstance e "tf.errors.OutOfRangeError");
    [split; [done|by intros []]|done].
Qed.

Lemma train_finally_returns (coord : handle) w s s' :
  train_finally coord w s = (s', Normal tt) →
  ∃ wr, st_trace s' = st_trace s ++ finally_block coord wr ∧
        st_self s' = st_self s ∧ st_step s' = st_step s.
Proof.
  intros Hrun. unfold train_finally in Hrun. inv_run.
  eexists. split; [|done]. by rewrite <- !app_assoc.
Qed.

(** The [finally] clause always asks the coordinator to stop, and does not
    join the threads. *)
Lemma train_finally_run (coord : handle) w s s' o :
  train_finally coord w s = (s', o) →
  o ≠ Running ∧ st_self s' = st_self s ∧
  ∃ seg, st_trace s' = st_trace s ++ seg ∧ RequestStop coord ∈ seg ∧
    Forall (fun c => is_save_call c = false ∧ is_loop_call c = false ∧
                     ∀ threads, c ≠ CoordJoin coord threads) seg.
Proof.
  intros Hrun. unfold train_finally in Hrun. inv_run.
  all: split; [by try destruct o|]; split; [done|]; segment.
  all: split; [rewrite !elem_of_cons; auto|].
  all: each_call ltac:(done).
Qed.

(** What an [except] clause of [train] does: it prints its message with
    the step the loop was left at, and calls [save]. *)
Lemma train_handler_run (sess : handle) (mk : Z -> message) w s s' o :
  (step ← get_step; print (mk step);; save sess) w s = (s', o) →
  o ≠ Running ∧ st_self s' = st_self s ∧ st_step s' = st_step s ∧
  ∃ blk, st_trace s' = st_trace s ++ Print (mk (st_step s)) :: blk ∧
    save_calls (fun d => checkpoint_dir (st_self s) = Some d) blk ∧
    (∀ r, o = Normal r →
       ∃ d sv present, checkpoint_dir (st_self s) = Some d ∧
                       blk = save_block sess sv d present).
Proof.
  intros Hrun.
  apply bind_inv in Hrun as [(s1 & st & Hget & Hrun) | [(e & Hget & _) | [Hget _]]];
    apply get_step_inv in Hget as [-> Hget]; try discriminate.
  assert (st = st_step s) as -> by congruence. clear Hget.
  apply bind_inv in Hrun as [(s1 & [] & Hp & Hsave) | [(e & Hp & _) | [Hp _]]];
    apply print_inv in Hp as [-> Hp]; try discriminate.
  destruct (save_shape w (fun o => o = st_self s)
              (fun d => checkpoint_dir (st_self s) = Some d)
              ltac:(by intros ? ? ->) sess
              (emit (Print (mk (st_step s))) s) _ _ eq_refl Hsave)
    as (Hself & Hstep & blk & Htr & Hblk).
  split. { intros ->. by apply save_not_running in Hsave. }
  split; [done|]. split; [done|]. exists blk.
  split; [rewrite Htr; simpl; by rewrite <- app_assoc|]. split; [done|].
  intros [] ->. apply save_returns in Hsave as (d & sv & present & Hd & _ & _ & Htr').
  exists d, sv, present. split; [done|].
  rewrite Htr in Htr'. by apply app_inv_head in Htr'.
Qed.

(** The [try] statement, case by case on how the loop was left. *)
Lemma train_try_run (fuel : nat) (sess coord : handle) (ss cs : option Z)
    w s s' o :
  train_try fuel sess coord ss cs w s = (s', o) →
  ∃ s1 o1,
    train_loop fuel sess coord ss cs w s = (s1, o1) ∧
    match o1 with
    | Running => s' = s1 ∧ o = Running
    | Normal _ =>
        ∃ o3, train_finally coord w s1 = (s', o3) ∧
              o = match o3 with
                  | Normal _ => Normal tt
                  | Raised e => Raised e
                  | Running => Running
                  end
    | Raised e =>
        ∃ s2 o2 o3 blk,
          st_trace s2 = st_trace s1 ++ blk ∧ st_self s2 = st_self s1 ∧
          o2 ≠ Running ∧
          train_finally coord w s2 = (s', o3) ∧
          o = match o3 with
              | Normal _ => o2
              | Raised e' => Raised e'
              | Running => Running
              end ∧
          ((isinstance e "KeyboardInterrupt" = false ∧
            isinstance e "tf.errors.OutOfRangeError" = false ∧
            s2 = s1 ∧ blk = [] ∧ o2 = Raised e) ∨
           (∃ m blk',
              (isinstance e "KeyboardInterrupt" = true ∧
               m = MsgInterrupted (st_step s1) ∨
               isinstance e "KeyboardInterrupt" = false ∧
               isinstance e "tf.errors.OutOfRangeError" = true ∧
               m = MsgCompleted (st_step s1)) ∧
              blk = Print m :: blk' ∧
              save_calls (fun d => checkpoint_dir (st_self s1) = Some d) blk' ∧
              (∀ r, o2 = Normal r →
                 ∃ d sv present, checkpoint_dir (st_self s1) = Some d ∧
                                 blk' = save_block sess sv d present)))
    end.
Proof.
  intros Hrun. unfold train_try in Hrun.
  apply try_finally_inv in Hrun as [[Hbody ->]|(s2 & o2 & o3 & Hbody & Hnr & Hfin & ->)].
  - apply try_except_inv in Hbody as [[Hloop _]|(s1 & e & h & Hloop & Hh & Hrun)].
    + by exists s', Running.
    + apply train_handler_selected in Hh as [[_ ->]|(_ & _ & ->)];
        by apply train_handler_run in Hrun as [? _].
  - apply try_except_inv in Hbody as [[Hloop Hnone]|(s1 & e & h & Hloop & Hh & Hrun)].
    + exists s2, o2. split; [done|]. destruct o2 as [[]|e|]; [by exists o3| |done].
      apply train_handler_none in Hnone as [? ?].
      exists s2, (Raised e), o3, []. rewrite app_nil_r.
      repeat (split; [done|]). by left.
    + exists s1, (Raised e). split; [done|].
      apply train_handler_selected in Hh as [[He ->]|(He1 & He2 & ->)];
        apply train_handler_run in Hrun
          as (_ & Hself & _ & blk & Htr & Hblk & Hret).
      * exists s2, o2, o3, (Print (MsgInterrupted (st_step s1)) :: blk).
        repeat (split; [done|]). right.
        exists (MsgInterrupted (st_step s1)), blk. auto.
      * exists s2, o2, o3, (Print (MsgCompleted (st_step s1)) :: blk).
        repeat (split; [done|]). right.
        exists (MsgCompleted (st_step s1)), blk. auto 6.
Qed.

Lemma load_returns (sess : handle) w s s' :
  load sess None w s = (s', Normal tt) →
  ∃ d sv p st,
    checkpoint_dir (st_self s) = Some d ∧
    st_trace s' =
      st_trace s ++ [LatestCheckpoint d; SaverRestore sv sess p;
                     GlobalStepValue sess; Print (MsgLoaded st p)] ∧
    st_self s' = st_self s ∧ st_step s' = st_step s.
Proof.
  intros Hrun. unfold load in Hrun. inv_run.
  eexists _, _, _, _. split; [done|]. split; [|done].
  by rewrite <- !app_assoc.
Qed.

Lemma train_session_rest_returns (fuel : nat) (resume : bool)
    (ss cs : option Z) (sess : handle) w s s' :
  train_session_rest fuel resume ss cs sess w s = (s', Normal tt) →
  ∃ coord threads s0 s2 pre,
    st_trace s0 = st_trace s ++ pre ++ start_block sess coord ∧
    w_threads w (st_trace s ++ pre ++ [StartQueueRunners sess coord]) =
      Ret threads ∧
    st_step s0 = 0 ∧ st_self s0 = st_self s ∧
    (resume = true → ∃ d, checkpoint_dir (st_self s) = Some d ∧
                          LatestCheckpoint d ∈ pre) ∧
    train_try fuel sess coord ss cs w s0 = (s2, Normal tt) ∧
    st_trace s' = st_trace s2 ++ join_block coord threads.
Proof.
  intros Hrun. unfold train_session_rest in Hrun. inv_run.
  - match goal with H : load _ _ _ _ = _ |- _ =>
      apply load_returns in H as (d & sv & p & st & Hd & Htr & Hself & Hstep)
    end.
    simpl in *.
    match goal with H : train_try _ _ ?coord _ _ _ ?s0 = (?s2, _),
                    Ht : w_threads _ _ = Ret ?threads |- _ =>
      exists coord, threads, s0, s2,
        ([Print MsgInitializing; LocalVariablesInit; GlobalVariablesInit;
          LatestCheckpoint d; SaverRestore sv sess p; GlobalStepValue sess;
          Print (MsgLoaded st p); Print MsgStartingCoordinator;
          CoordinatorNew])
    end.
    simpl. rewrite Htr, Hself in *. rewrite <- !app_assoc in *. simpl in *.
    repeat (split; [done|]). split; [|done].
    intros _. exists d. split; [done|]. rewrite !elem_of_cons. auto 10.
  - match goal with H : train_try _ _ ?coord _ _ _ ?s0 = (?s2, _),
                    Ht : w_threads _ _ = Ret ?threads |- _ =>
      exists coord, threads, s0, s2,
        ([Print MsgInitializing; LocalVariablesInit; GlobalVariablesInit;
          Print MsgStartingCoordinator; CoordinatorNew])
    end.
    simpl. rewrite <- !app_assoc in *. simpl in *.
    repeat (split; [done|]). done.
Qed.

(** A run of [train] that returns: it entered the loop right after starting
    the data threads, the [try] statement returned, and then the threads
    were joined and the session closed. *)
Lemma train_returns (fuel : nat) (lr : pyval) (resume : bool)
    (ss cs : option Z) w s s' :
  train fuel lr resume ss cs w s = (s', Normal tt) →
  ∃ sess coord threads s0 s2 pre,
    st_trace s0 = st_trace s ++ pre ++ start_block sess coord ∧
    w_threads w (st_trace s ++ pre ++ [StartQueueRunners sess coord]) =
      Ret threads ∧
    st_step s0 = 0 ∧
    (resume = true → ∃ d, LatestCheckpoint d ∈ pre) ∧
    train_try fuel sess coord ss cs w s0 = (s2, Normal tt) ∧
    st_trace s' =
      st_trace s2 ++ join_block coord threads ++ [SessionClose sess].
Proof.
  intros Hrun. unfold train in Hrun. inv_run.
  match goal with H : try_finally _ _ _ _ = _ |- _ =>
    apply try_finally_inv in H
      as [[_ ?]|(s1 & o1 & o2 & Hbody & _ & Hfin & Ho)]; [done|]
  end.
  destruct o2 as [[]| |]; try done. subst o1.
  apply ext_inv in Hfin as [-> _].
  unfold train_session in Hbody. inv_run.
  match goal with H : train_session_rest _ _ _ _ _ _ _ = _ |- _ =>
    apply train_session_rest_returns in H
      as (coord & threads & s0 & s2 & pre & Htr0 & Hthr & Hstep & _ & Hload
          & Htry & Htr')
  end.
  simpl in *. rewrite <- !app_assoc in Htr0, Hthr. simpl in Htr0, Hthr.
  match goal with Hs : w_handle _ (_ ++ [SessionOpen]) = Ret ?sess |- _ =>
    exists sess, coord, threads, s0, s2
  end.
  eexists (_ :: _ :: _ :: _ :: _ :: _ :: _ :: pre).
  split; [exact Htr0|]. split; [exact Hthr|]. split; [done|].
  split. { intros Hr. destruct (Hload Hr) as (d & _ & Hin). exists d.
           rewrite !elem_of_cons. auto 10. }
  split; [done|]. rewrite Htr'. by rewrite <- app_assoc.
Qed.

(** ** Failures *)

Lemma save_calls_not_loop_calls D blk :
  save_calls D blk → Forall (fun c => is_loop_call c = false) blk.
Proof. intros H. destruct H; each_call ltac:(done). Qed.

(** C1: [train] has exactly two [except] clauses, for [KeyboardInterrupt]
    and for [tf.errors.OutOfRangeError].  When the loop is left by an
    exception, no call of the loop follows; an instance of one of the two
    classes is caught: its message is printed with the step the loop was
    left at and [save] is called (the whole [save] when the [try] statement
    returns); any other exception is not caught: nothing is saved and the
    [try] statement raises it (or the exception of the [finally] clause, if
    that one raises too).  Hence a run of [train] that returns has left its
    loop normally or by an instance of one of the two classes. *)
Theorem train_handles_two_failures (w : World) :
  (∀ sess, (train_handlers sess).*1 =
           ["KeyboardInterrupt"; "tf.errors.OutOfRangeError"]) ∧
  (∀ fuel sess coord ss cs s s1 e,
     train_loop fuel sess coord ss cs w s = (s1, Raised e) →
     ∃ s2 o seg,
       train_try fuel sess coord ss cs w s = (s2, o) ∧ o ≠ Running ∧
       st_trace s2 = st_trace s1 ++ seg ∧
       Forall (fun c => is_loop_call c = false) seg ∧
       (isinstance e "KeyboardInterrupt" = true ∨
        isinstance e "tf.errors.OutOfRangeError" = true →
        ∃ blk rest,
          seg = Print (if isinstance e "KeyboardInterrupt"
                       then MsgInterrupted (st_step s1)
                       else MsgCompleted (st_step s1)) :: blk ++ rest ∧
          save_calls (fun d => checkpoint_dir (st_self s1) = Some d) blk ∧
          Forall (fun c => is_save_call c = false) rest ∧
          (o = Normal tt →
           ∃ d sv present, checkpoint_dir (st_self s1) = Some d ∧
                           blk = save_block sess sv d present)) ∧
       (isinstance e "KeyboardInterrupt" = false →
        isinstance e "tf.errors.OutOfRangeError" = false →
        Forall (fun c => is_save_call c = false) seg ∧
        ∃ e', o = Raised e' ∧
              (e' = e ∨ train_finally coord w s1 = (s2, Raised e')))) ∧
  (∀ fuel lr resume ss cs s s',
     train fuel lr resume ss cs w s = (s', Normal tt) →
     ∃ sess coord s0 s1 o1 pre post,
       train_loop fuel sess coord ss cs w s0 = (s1, o1) ∧
       st_trace s0 = st_trace s ++ pre ∧ st_trace s' = st_trace s1 ++ post ∧
       (o1 = Normal tt ∨
        ∃ e, o1 = Raised e ∧
             (isinstance e "KeyboardInterrupt" = true ∨
              isinstance e "tf.errors.OutOfRangeError" = true))).
Proof.
  split; [done|]. split.
  - intros fuel sess coord ss cs s s1 e Hloop.
    destruct (train_try fuel sess coord ss cs w s) as [s2 o] eqn:Htry.
    destruct (train_try_run _ _ _ _ _ _ _ _ _ Htry) as (s1' & o1 & Hloop' & Hcase).
    rewrite Hloop in Hloop'. injection Hloop' as <- <-.
    destruct Hcase as (s3 & o2 & o3 & blk & Htr3 & Hself3 & Ho2 & Hfin & -> & Hcase).
    destruct (train_finally_run _ _ _ _ _ Hfin)
      as (Ho3 & _ & fin & Htr & _ & Hfin_calls).
    exists s2, (match o3 with
                | Normal _ => o2 | Raised e' => Raised e' | Running => Running
                end), (blk ++ fin).
    split; [done|]. split; [by destruct o3|].
    split; [by rewrite Htr, Htr3, <- app_assoc|].
    assert (Forall (fun c => is_save_call c = false) fin) as Hfin_save.
    { eapply Forall_impl; [exact Hfin_calls|]. by intros c (? & _). }
    assert (Forall (fun c => is_loop_call c = false) fin) as Hfin_loop.
    { eapply Forall_impl; [exact Hfin_calls|]. by intros c (_ & ? & _). }
    destruct Hcase as [(He1 & He2 & -> & -> & ->)|(m & blk' & Hm & -> & Hblk & Hret)].
    + split; [done|]. split; [intros [?|?]; congruence|].
      intros _ _. split; [done|].
      destruct o3 as [[]|e'|]; [by exists e; auto| |done].
      exists e'. auto.
    + split.
      { constructor; [by destruct Hm as [[_ ->]|(_ & _ & ->)]|].
        apply Forall_app. split; [|done].
        by eapply save_calls_not_loop_calls. }
      split.
      * intros _. exists blk', fin. split.
        { destruct Hm as [[-> ->]|(-> & _ & ->)]; done. }
        split; [done|]. split; [done|].
        destruct o3 as [[]| |]; [|done..]. intros ->. by apply (Hret tt).
      * intros He1 He2. destruct Hm as [[? _]|(_ & ? & _)]; congruence.
  - intros fuel lr resume ss cs s s' Hrun.
    apply train_returns in Hrun
      as (sess & coord & threads & s0 & s2 & pre & Htr0 & _ & _ & _ & Htry & Htr').
    destruct (train_try_run _ _ _ _ _ _ _ _ _ Htry) as (s1 & o1 & Hloop & Hcase).
    exists sess, coord, s0, s1, o1. 
    destruct o1 as [[]|e|].
    + destruct Hcase as (o3 & Hfin & Ho).
      destruct (train_finally_run _ _ _ _ _ Hfin) as (_ & _ & fin & Htr & _).
      eexists _, _. split; [done|]. split; [exact Htr0|].
      split; [rewrite Htr', Htr, <- app_assoc; reflexivity|]. by left.
    + destruct Hcase as (s3 & o2 & o3 & blk & Htr3 & _ & _ & Hfin & Ho & Hcase).
      destruct (train_finally_run _ _ _ _ _ Hfin) as (_ & _ & fin & Htr & _).
      eexists _, _. split; [done|]. split; [exact Htr0|].
      split; [rewrite Htr', Htr, Htr3, <- !app_assoc; reflexivity|]. right.
      exists e. split; [done|].
      destruct Hcase as [(_ & _ & _ & _ & ->)|(m & blk' & Hm & _)].
      * by destruct o3.
      * destruct Hm as [[? _]|(_ & ? & _)]; auto.
    + by destruct Hcase as [_ ?].
Qed.

(** C1 at work: the second run of the fetches is interrupted. *)
Lemma train_handles_two_failures_witness :
  ∃ s1 s2 o seg,
    train_loop 5 6%nat 12%nat (Some 2) (Some 3)
      (failing_at 2 KeyboardInterrupt) at_loop = (s1, Raised KeyboardInterrupt) ∧
    train_try 5 6%nat 12%nat (Some 2) (Some 3)
      (failing_at 2 KeyboardInterrupt) at_loop = (s2, o) ∧
    o ≠ Running ∧ st_trace s2 = st_trace s1 ++ seg ∧
    Forall (fun c => is_loop_call c = false) seg.
Proof.
  assert (train_loop 5 6%nat 12%nat (Some 2) (Some 3)
            (failing_at 2 KeyboardInterrupt) at_loop =
          ((train_loop 5 6%nat 12%nat (Some 2) (Some 3)
              (failing_at 2 KeyboardInterrupt) at_loop).1,
           Raised KeyboardInterrupt)) as Hloop
    by (vm_compute; reflexivity).
  destruct (proj1 (proj2 (train_handles_two_failures
                            (failing_at 2 KeyboardInterrupt)))
              _ _ _ _ _ _ _ _ Hloop)
    as (s2 & o & seg & Htry & Ho & Htr & Hseg & _).
  eexists _, s2, o, seg. split; [exact Hloop|]. done.
Defined.

(** ** Shutdown *)

(** C2: when the loop is left by an interrupt or by the end of the data,
    the [finally] clause asks the coordinator to stop ([request_stop] is
    called whatever [save] did) and closes the summary writer, and the
    [try] statement itself does not join the threads; when it returns, its
    last calls are [request_stop] and the close of the writer.  A run of
    [train] that returns ends with: [request_stop], the close of the writer,
    the join of exactly the threads [start_queue_runners] returned, and the
    close of the session. *)
Theorem shutdown_on_interrupt_or_exhaustion (w : World) :
  (∀ fuel sess coord ss cs s s1 e,
     train_loop fuel sess coord ss cs w s = (s1, Raised e) →
     isinstance e "KeyboardInterrupt" = true ∨
     isinstance e "tf.errors.OutOfRangeError" = true →
     ∃ s2 o seg,
       train_try fuel sess coord ss cs w s = (s2, o) ∧
       st_trace s2 = st_trace s1 ++ seg ∧
       RequestStop coord ∈ seg ∧
       (∀ threads, CoordJoin coord threads ∉ seg) ∧
       (o = Normal tt →
        ∃ blk wr, seg = blk ++ finally_block coord wr)) ∧
  (∀ fuel lr resume ss cs s s',
     train fuel lr resume ss cs w s = (s', Normal tt) →
     ∃ sess coord threads wr tr0 rest,
       st_trace s' =
         (tr0 ++ StartQueueRunners sess coord :: rest) ++
         finally_block coord wr ++ join_block coord threads ++
         [SessionClose sess] ∧
       w_threads w (tr0 ++ [StartQueueRunners sess coord]) = Ret threads).
Proof.
  split.
  - intros fuel sess coord ss cs s s1 e Hloop He.
    destruct (train_try fuel sess coord ss cs w s) as [s2 o] eqn:Htry.
    destruct (train_try_run _ _ _ _ _ _ _ _ _ Htry) as (s1' & o1 & Hloop' & Hcase).
    rewrite Hloop in Hloop'. injection Hloop' as <- <-.
    destruct Hcase as (s3 & o2 & o3 & blk & Htr3 & Hself3 & Ho2 & Hfin & -> & Hcase).
    destruct (train_finally_run _ _ _ _ _ Hfin)
      as (Ho3 & _ & fin & Htr & Hstop & Hfin_calls).
    exists s2, (match o3 with
                | Normal _ => o2 | Raised e' => Raised e' | Running => Running
                end), (blk ++ fin).
    split; [done|]. split; [by rewrite Htr, Htr3, <- app_assoc|].
    split; [rewrite elem_of_app; auto|]. split.
    + intros threads Hin. apply elem_of_app in Hin as [Hin|Hin].
      * destruct Hcase as [(_ & _ & _ & -> & _)|(m & blk' & _ & -> & Hblk & _)];
          [by apply elem_of_nil in Hin|].
        apply elem_of_cons in Hin as [?|Hin]; [done|].
        apply save_calls_are_save_calls in Hblk.
        rewrite Forall_forall in Hblk. by apply Hblk in Hin.
      * rewrite Forall_forall in Hfin_calls.
        destruct (Hfin_calls _ Hin) as (_ & _ & Hne). by apply (Hne threads).
    + destruct o3 as [[]| |]; [|done..]. intros _.
      apply train_finally_returns in Hfin as (wr & Htr_fin & _).
      exists blk, wr. rewrite Htr in Htr_fin.
      by apply app_inv_head in Htr_fin as ->.
  - intros fuel lr resume ss cs s s' Hrun.
    apply train_returns in Hrun
      as (sess & coord & threads & s0 & s2 & pre & Htr0 & Hthr & _ & _ & Htry & Htr').
    destruct (train_try_run _ _ _ _ _ _ _ _ _ Htry) as (s1 & o1 & Hloop & Hcase).
    destruct (train_loop_calls _ _ _ _ _ _ _ _ _ Hloop) as (loop & Htr1 & _).
    assert (∃ s3 blk, st_trace s3 = st_trace s1 ++ blk ∧
                      train_finally coord w s3 = (s2, Normal tt))
      as (s3 & blk & Htr3 & Hfin).
    { destruct o1 as [[]|e|].
      - destruct Hcase as (o3 & Hfin & Ho). exists s1, [].
        rewrite app_nil_r. by destruct o3 as [[]| |].
      - destruct Hcase as (s3 & o2 & o3 & blk & Htr3 & _ & _ & Hfin & Ho & _).
        exists s3, blk. by destruct o3 as [[]| |].
      - by destruct Hcase as [_ ?]. }
    apply train_finally_returns in Hfin as (wr & Htr2 & _).
    exists sess, coord, threads, wr, (st_trace s ++ pre),
      ([Print MsgStartingOptimization; TimeTime] ++ loop ++ blk).
    split; [|by rewrite <- app_assoc].
    rewrite Htr', Htr2, Htr3, Htr1, Htr0. unfold start_block.
    rewrite <- !app_assoc. simpl. by rewrite <- !app_assoc.
Qed.

(** C2 at work: the data ends at the fourth run of the fetches. *)
Lemma shutdown_on_interrupt_or_exhaustion_witness :
  ∃ sess coord threads wr tr0 rest,
    st_trace (train 9 (PyFloat 1 (-3)) false (Some 2) (Some 3)
                (failing_at 4 OutOfRangeError) (start sample_model)).1 =
      (tr0 ++ StartQueueRunners sess coord :: rest) ++
      finally_block coord wr ++ join_block coord threads ++
      [SessionClose sess] ∧
    w_threads (failing_at 4 OutOfRangeError)
      (tr0 ++ [StartQueueRunners sess coord]) = Ret threads.
Proof.
  apply (proj2 (shutdown_on_interrupt_or_exhaustion
                  (failing_at 4 OutOfRangeError))
           9%nat (PyFloat 1 (-3)) false (Some 2) (Some 3)
           (start sample_model)).
  vm_compute. reflexivity.
Defined.

(** ** The checkpoint directory *)




(** ** How long the loop runs *)

Lemma count_calls_app (p : call -> bool) (a b : trace) :
  count_calls p (a ++ b) = (count_calls p a + count_calls p b)%nat.
Proof.
  induction a as [|c a IH]; simpl; [done|]. rewrite IH. by destruct (p c).
Qed.

Lemma count_calls_none (p : call -> bool) (a : trace) :
  Forall (fun c => p c = false) a → count_calls p a = 0%nat.
Proof. induction 1 as [|c a Hc _ IH]; simpl; [done|]. by rewrite Hc. Qed.

Lemma _train_step_fetches (sess : handle) w s s' o :
  _train_step sess w s = (s', o) →
  ∃ seg, st_trace s' = st_trace s ++ seg ∧
         (count_calls is_fetch seg ≤ 1)%nat.
Proof.
  intros Hrun. unfold _train_step in Hrun. inv_run.
  all: segment; simpl; lia.
Qed.

Lemma train_iteration_fetches (sess : handle) (ss cs : option Z) w s s' o :
  train_iteration sess ss cs w s = (s', o) →
  o ≠ Running ∧
  ∃ seg, st_trace s' = st_trace s ++ seg ∧
    (count_calls is_fetch seg ≤ 1)%nat ∧
    (o = Normal tt → count_calls is_fetch seg = 1%nat).
Proof.
  intros Hrun.
  destruct (train_iteration_run _ _ _ _ _ _ _ Hrun)
    as [(e & seg & Hts & -> & _ & Htr & _)
       |(s1 & seg1 & seg2 & Hts & Hnr & Htr & Hall1 & _ & Hblk & _)].
  - split; [done|].
    destruct (_train_step_fetches _ _ _ _ _ Hts) as (seg' & Htr' & Hle).
    exists seg'. done.
  - split; [done|]. exists (train_step_calls sess ++ seg1 ++ seg2).
    split; [done|].
    assert (count_calls is_fetch (train_step_calls sess ++ seg1 ++ seg2) = 1%nat)
      as ->; [|split; [lia|done]].
    rewrite !count_calls_app. simpl.
    rewrite (count_calls_none _ seg1), (count_calls_none _ seg2); [done| |].
    + destruct Hblk as [->|(blk & -> & Hblk)]; [constructor|].
      constructor; [done|]. eapply Forall_impl; [exact Hblk|].
      by intros [[]| | | | | | | | | | | | | | | | | | | | | | | | | | | | | | |].
    + eapply Forall_impl; [exact Hall1|].
      by intros [[]| | | | | | | | | | | | | | | | | | | | | | | | | | | | | | |] [?|?].
Qed.

(** The loop returns only on the answer [True] of [coord.should_stop()]. *)
Lemma train_loop_returns w fuel sess coord ss cs s s' :
  train_loop fuel sess coord ss cs w s = (s', Normal tt) →
  ∃ tr, st_trace s' = tr ++ [ShouldStop coord] ∧
        w_bool w (st_trace s') = Ret true.
Proof.
  revert s. induction fuel as [|fuel IH]; intros s Hrun; simpl in Hrun.
  - by apply running_inv in Hrun as [_ ?].
  - apply bind_inv in Hrun as [(s1 & stop & Hstop & Hrun) | [(e & _ & ?) | [_ ?]]];
      [|done..].
    apply ext_inv in Hstop as [-> Hstop]. destruct stop.
    + apply ret_inv in Hrun as [-> _]. by exists (st_trace s).
    + apply bind_inv in Hrun as [(s2 & [] & _ & Hrun) | [(e & _ & ?) | [_ ?]]];
        [|done..].
      by apply (IH s2).
Qed.

(** The loop makes one train step for each unit of fuel it uses, and uses
    all its fuel only when it is still running. *)
Lemma train_loop_fetches w fuel sess coord ss cs s s' o :
  train_loop fuel sess coord ss cs w s = (s', o) →
  ∃ seg, st_trace s' = st_trace s ++ seg ∧
    (count_calls is_fetch seg ≤ fuel)%nat ∧
    (o = Running → count_calls is_fetch seg = fuel).
Proof.
  revert s. induction fuel as [|fuel IH]; intros s Hrun; simpl in Hrun.
  - apply running_inv in Hrun as [-> _]. exists []. by rewrite app_nil_r.
  - apply bind_inv in Hrun as [(s1 & stop & Hstop & Hrun) | [(e & Hstop & ->) | [Hstop _]]];
      apply ext_inv in Hstop as [-> Hstop]; [| |done].
    2:{ exists [ShouldStop coord]. split; [done|]. simpl. split; [lia|done]. }
    destruct stop.
    { apply ret_inv in Hrun as [-> ->]. exists [ShouldStop coord].
      split; [done|]. simpl. split; [lia|done]. }
    apply bind_inv in Hrun as [(s2 & [] & Hit & Hrun) | [(e & Hit & ->) | [Hit ->]]];
      destruct (train_iteration_fetches _ _ _ _ _ _ _ Hit)
        as (Hnr & seg1 & Htr1 & Hle & Hone); [| |done].
    + destruct (IH s2 Hrun) as (seg2 & Htr2 & Hle2 & Hrunning).
      exists (ShouldStop coord :: seg1 ++ seg2).
      split. { rewrite Htr2, Htr1. simpl. by rewrite <- !app_assoc. }
      simpl. rewrite count_calls_app, (Hone eq_refl).
      split; [lia|]. intros Ho. by rewrite (Hrunning Ho).
    + exists (ShouldStop coord :: seg1).
      split. { rewrite Htr1. simpl. by rewrite <- !app_assoc. }
      simpl. split; [lia|done].
Qed.

(** A loop that has left has left for good: more fuel changes nothing. *)
Lemma train_loop_more_fuel w fuel more sess coord ss cs s s' o :
  train_loop fuel sess coord ss cs w s = (s', o) → o ≠ Running →
  train_loop (fuel + more) sess coord ss cs w s = (s', o).
Proof.
  revert s. induction fuel as [|fuel IH]; intros s Hrun Hnr; simpl in Hrun.
  - by apply running_inv in Hrun as [_ ?].
  - simpl. revert Hrun. unfold mbind, M_bind, bind.
    destruct (ext w_bool (ShouldStop coord) w s) as [s1 [[]|e|]]; try done.
    destruct (train_iteration sess ss cs w s1) as [s2 [[]|e|]]; try done.
    intros Hrun. by apply IH.
Qed.

Lemma modulus_test_usable (step : Z) (every : option Z) :
  usable every → ∃ b, modulus_test step every = Normal b.
Proof.
  intros (n & -> & Hn). unfold modulus_test. case_bool_decide; [|by eexists].
  destruct n; [done|by eexists..].
Qed.

Section NeverStops.
Variable w : World.
Hypothesis quiet : never_stops w.

Lemma quiet_unit tr : w_unit w tr = Ret tt.
Proof. by destruct quiet as (H & _). Qed.

Lemma quiet_should_stop tr coord : w_bool w (tr ++ [ShouldStop coord]) = Ret false.
Proof. by destruct quiet as (_ & H & _). Qed.

Lemma quiet_exists tr d : ∃ b, w_bool w (tr ++ [PathExists d]) = Ret b.
Proof. by destruct quiet as (_ & _ & H & _). Qed.

Lemma quiet_int tr : ∃ z, w_int w tr = Ret z.
Proof. by destruct quiet as (_ & _ & _ & H & _). Qed.

Lemma quiet_hook tr o : w_hook w tr o = (o, Ret tt).
Proof. by destruct quiet as (_ & _ & _ & _ & H). Qed.

(** Running a program forward in a world that never stops. *)
Ltac forward :=
  unfold mbind, M_bind, bind, hook, attr, ext, print, ret, emit; simpl;
  repeat (first
    [ rewrite quiet_hook
    | rewrite quiet_unit
    | match goal with
      | |- context [w_int w ?tr] =>
          let z := fresh "z" in let Hz := fresh "Hz" in
          destruct (quiet_int tr) as [z Hz]; rewrite Hz
      | |- context [w_bool w (?tr ++ [PathExists ?d])] =>
          let b := fresh "b" in let Hb := fresh "Hb" in
          destruct (quiet_exists tr d) as [b Hb]; rewrite Hb; destruct b
      | H : ?proj ?o = Some _ |- context [?proj ?o] => rewrite H
      end ]; simpl).

Lemma quiet__train_step (sess : handle) s :
  ready (st_self s) →
  ∃ s1 st, _train_step sess w s = (s1, Normal st) ∧
           st_self s1 = st_self s.
Proof.
  intros (_ & [gs Hgs] & _ & [ms Hms] & _). unfold _train_step. forward.
  by eexists _, _.
Qed.

Lemma quiet_save (sess : handle) s :
  ready (st_self s) →
  ∃ s1, save sess w s = (s1, Normal tt) ∧ st_self s1 = st_self s.
Proof.
  intros ([d Hd] & [gs Hgs] & [sv Hsv] & _). unfold save. forward;
    by eexists.
Qed.

Lemma quiet_log_summary (step : Z) (every : option Z) s :
  ready (st_self s) → usable every →
  ∃ s1, log_summary step every w s = (s1, Normal tt) ∧
        st_self s1 = st_self s.
Proof.
  intros (_ & _ & _ & _ & [wr Hwr]) Hu. unfold log_summary.
  destruct (modulus_test_usable step every Hu) as [b Hb].
  rewrite (bind_Normal _ _ w s s b) by by rewrite summary_due_run, Hb.
  destruct b; [|by eexists]. forward. by eexists.
Qed.

Lemma quiet_periodic_checkpoint (sess : handle) (step : Z)
    (every : option Z) s :
  ready (st_self s) → every = None ∨ usable every →
  ∃ s1, periodic_checkpoint sess step every w s = (s1, Normal tt) ∧
        st_self s1 = st_self s.
Proof.
  intros Hready Hu. unfold periodic_checkpoint.
  assert (∃ b, checkpoint_due step every w s = (s, Normal b)) as [b Hb].
  { rewrite checkpoint_due_run. destruct Hu as [->|Hu]; [by eexists|].
    destruct (modulus_test_usable step every Hu) as [b Hb].
    exists b. destruct Hu as (n & -> & _). by rewrite Hb. }
  rewrite (bind_Normal _ _ w s s b Hb).
  destruct b; [|by eexists].
  destruct (quiet_save sess (emit (Print (MsgSavingCheckpoint step)) s) Hready)
    as (s1 & Hsave & Hself).
  exists s1. split; [|done].
  by rewrite (bind_Normal _ _ w s _ tt eq_refl).
Qed.

Lemma quiet_train_iteration (sess : handle) (ss cs : option Z) s :
  ready (st_self s) → usable ss → cs = None ∨ usable cs →
  ∃ s1, train_iteration sess ss cs w s = (s1, Normal tt) ∧
        st_self s1 = st_self s.
Proof.
  intros Hready Hss Hcs. unfold train_iteration.
  destruct (quiet__train_step sess s Hready) as (s1 & st & Hts & Hself1).
  rewrite (bind_Normal _ _ w s s1 st Hts).
  rewrite (bind_Normal _ _ w s1 _ tt eq_refl).
  destruct (quiet_log_summary st ss (State (st_trace s1) (st_self s1) st))
    as (s2 & Hlog & Hself2); [by rewrite Hself1|done|].
  rewrite (bind_Normal _ _ w _ s2 tt Hlog).
  destruct (quiet_periodic_checkpoint sess st cs s2) as (s3 & Hck & Hself3);
    [simpl in *; congruence|done|].
  exists s3. split; [done|]. simpl in *. congruence.
Qed.

Lemma quiet_train_loop (fuel : nat) (sess coord : handle) (ss cs : option Z) s :
  ready (st_self s) → usable ss → cs = None ∨ usable cs →
  ∃ s', train_loop fuel sess coord ss cs w s = (s', Running).
Proof.
  intros Hready Hss Hcs. revert s Hready.
  induction fuel as [|fuel IH]; intros s Hready; simpl; [by eexists|].
  assert (ext w_bool (ShouldStop coord) w s =
          (emit (ShouldStop coord) s, Normal false)) as Hstop.
  { unfold ext. simpl. by rewrite quiet_should_stop. }
  rewrite (bind_Normal _ _ w s _ false Hstop).
  destruct (quiet_train_iteration sess ss cs (emit (ShouldStop coord) s))
    as (s1 & Hit & Hself); [done..|].
  rewrite (bind_Normal _ _ w _ s1 tt Hit).
  apply IH. by rewrite Hself.
Qed.

End NeverStops.

Lemma endless_never_stops : never_stops endless.
Proof.
  repeat split.
  - intros tr coord. unfold endless, scripted. simpl. by rewrite last_snoc.
  - intros tr d. unfold endless, scripted. simpl. rewrite last_snoc. by eexists.
  - intros tr. unfold endless, scripted, counting. simpl.
    destruct (last tr) as [[]|]; by eexists.
Qed.

Lemma at_loop_ready : ready (st_self at_loop).
Proof. repeat split; by eexists. Qed.




(** ** Loading a given step *)

Lemma string_app_assoc (a b c : string) : (a +:+ b) +:+ c = a +:+ (b +:+ c).
Proof.
  induction a as [|x a IH]; [done|].
  change (String x ((a +:+ b) +:+ c) = String x (a +:+ (b +:+ c))).
  by rewrite IH.
Qed.

Lemma path_join_suffix (a b c : path) :
  b ≠ "" → path_join a (b +:+ c) = path_join a b +:+ c.
Proof.
  intros Hb. unfold path_join.
  assert (starts_with_slash (b +:+ c) = starts_with_slash b) as ->.
  { by destruct b. }
  destruct (starts_with_slash b); [done|].
  destruct (bool_decide (a = "") || ends_with_slash a);
    by rewrite !string_app_assoc.
Qed.

Lemma load_step_run (sess : handle) (n : Z) w s s' o d sv :
  checkpoint_dir (st_self s) = Some d → saver (st_self s) = Some sv →
  load sess (Some n) w s = (s', o) →
  o ≠ Running ∧ st_self s' = st_self s ∧ st_step s' = st_step s ∧
  ∃ rest,
    st_trace s' =
      st_trace s ++
      SaverRestore sv sess (Some (path_join d "model" +:+ "-" +:+ py_str n))
      :: rest ∧
    Forall (fun c => c = GlobalStepValue sess ∨
                     ∃ st p, c = Print (MsgLoaded st p)) rest.
Proof.
  intros Hd Hsv Hrun. unfold load in Hrun.
  assert (path_join d ("model-" +:+ py_str n) =
          path_join d "model" +:+ "-" +:+ py_str n) as Hpath.
  { change ("model-" +:+ py_str n) with ("model" +:+ ("-" +:+ py_str n)).
    by rewrite path_join_suffix. }
  inv_run.
  all: try congruence.
  all: split; [not_running|]; split; [done|]; split; [done|].
  all: rewrite Hpath in *; rewrite <- ?app_assoc; simpl; eexists;
    (split; [reflexivity|]).
  all: each_call ltac:(eauto).
Qed.

(** X6: [load] with an explicit step never asks for the latest
    checkpoint: its first call restores the snapshot whose name is the
    prefix [save] writes under, [checkpoint_dir/model], followed by a dash
    and the decimal step; what follows is the reading of the global step and
    the message.  It changes neither [self] nor the step of the caller. *)
Theorem load_step_restores_saved_name (sess : handle) (n : Z) w s s' o d sv :
  checkpoint_dir (st_self s) = Some d → saver (st_self s) = Some sv →
  load sess (Some n) w s = (s', o) →
  o ≠ Running ∧ st_self s' = st_self s ∧ st_step s' = st_step s ∧
  ∃ rest,
    st_trace s' =
      st_trace s ++
      SaverRestore sv sess (Some (path_join d "model" +:+ "-" +:+ py_str n))
      :: rest ∧
    Forall (fun c => c = GlobalStepValue sess ∨
                     ∃ st p, c = Print (MsgLoaded st p)) rest.
Proof. apply load_step_run. Qed.

(** X6 at work: the step 300 in the directory [ckpt]. *)
Lemma load_step_restores_saved_name_witness :
  ∃ rest,
    st_trace (load 6%nat (Some 300) endless (start sample_model)).1 =
      st_trace (start sample_model) ++
      SaverRestore 3%nat 6%nat
        (Some (path_join "ckpt" "model" +:+ "-" +:+ py_str 300)) :: rest.
Proof.
  destruct (load_step_restores_saved_name 6%nat 300 endless
              (start sample_model) _ _ "ckpt" 3%nat
              ltac:(reflexivity) ltac:(reflexivity) (surjective_pairing _))
    as (_ & _ & _ & rest & Htr & _).
  by exists rest.
Defined.

(** X7: in one state and one world, calls of [load] with two different
    explicit steps do not make the same calls: they restore different
    snapshots. *)
Theorem load_steps_restore_distinct_snapshots (sess : handle) (n m : Z)
    w s s1 s2 o1 o2 :
  is_Some (checkpoint_dir (st_self s)) → is_Some (saver (st_self s)) →
  load sess (Some n) w s = (s1, o1) → load sess (Some m) w s = (s2, o2) →
  n ≠ m → st_trace s1 ≠ st_trace s2.
Proof.
  intros [d Hd] [sv Hsv] H1 H2 Hne Heq. apply Hne.
  destruct (load_step_run _ _ _ _ _ _ _ _ Hd Hsv H1)
    as (_ & _ & _ & r1 & Htr1 & _).
  destruct (load_step_run _ _ _ _ _ _ _ _ Hd Hsv H2)
    as (_ & _ & _ & r2 & Htr2 & _).
  rewrite Htr1, Htr2 in Heq. apply app_inv_head in Heq.
  injection Heq as Heq _.
  apply (inj (String.app _)) in Heq.
  apply (inj (String.app _)) in Heq.
  by apply (inj pretty) in Heq.
Qed.

(** X7 at work: the steps 300 and 301. *)
Lemma load_steps_restore_distinct_snapshots_witness :
  (300 ≠ 301)%Z ∧
  st_trace (load 6%nat (Some 300) endless (start sample_model)).1 ≠
  st_trace (load 6%nat (Some 301) endless (start sample_model)).1.
Proof.
  split; [lia|].
  apply (load_steps_restore_distinct_snapshots 6%nat 300 301 endless
           (start sample_model) _ _ _ _
           ltac:(by eexists) ltac:(by eexists)
           (surjective_pairing _) (surjective_pairing _)).
  lia.
Defined.

(** ** Loading from a directory without a checkpoint *)

(** X16: [load] without a step does not check that there is a checkpoint.
    When [tf.train.latest_checkpoint] finds none and answers [None], [load]
    hands [None] to [saver.restore] all the same; if [restore] raises,
    [load] raises that exception and prints nothing; if it returns, the
    message names the snapshot [None]. *)
Theorem load_does_not_check_the_checkpoint (sess : handle) w s s' o d sv :
  checkpoint_dir (st_self s) = Some d → saver (st_self s) = Some sv →
  w_snapshot w (st_trace s ++ [LatestCheckpoint d]) = Ret None →
  load sess None w s = (s', o) →
  ∃ rest,
    st_trace s' =
      st_trace s ++ LatestCheckpoint d :: SaverRestore sv sess None :: rest ∧
    match w_unit w (st_trace s ++ [LatestCheckpoint d;
                                   SaverRestore sv sess None]) with
    | Exc e => o = Raised e ∧ rest = []
    | Ret _ =>
        Forall (fun c => c = GlobalStepValue sess ∨
                         ∃ st, c = Print (MsgLoaded st None)) rest
    end.
Proof.
  intros Hd Hsv Hnone Hrun. unfold load in Hrun. inv_run.
  all: try congruence.
  all: rewrite <- ?app_assoc in *; simpl in *.
  all: match goal with
       | H1 : w_snapshot _ _ = Ret ?p, H2 : w_snapshot _ _ = Ret None |- _ =>
           rewrite H1 in H2; injection H2 as ->
       end.
  all: eexists; (split; [reflexivity|]).
  all: match goal with
       | H : w_unit _ _ = _ |- _ => rewrite H
       end.
  all: try done.
  all: each_call ltac:(eauto).
Qed.

(** X16 at work: a directory without a checkpoint. *)
Lemma load_does_not_check_the_checkpoint_witness :
  (load 6%nat None no_checkpoint (start sample_model)).2 = Raised ValueError ∧
  st_trace (load 6%nat None no_checkpoint (start sample_model)).1 =
    [LatestCheckpoint "ckpt"; SaverRestore 3%nat 6%nat None].
Proof.
  destruct (load_does_not_check_the_checkpoint 6%nat no_checkpoint
              (start sample_model) _ _ "ckpt" 3%nat
              ltac:(reflexivity) ltac:(reflexivity) ltac:(reflexivity)
              (surjective_pairing _))
    as (rest & Htr & H).
  simpl in H. destruct H as [Ho ->]. split; [exact Ho|exact Htr].
Defined.

(** ** Saving without a saver *)

(** X5: [save] on an object that has a checkpoint directory but no saver
    (as the object is while [__init__] runs the prediction hook) never
    writes a checkpoint and always raises; it looks for the directory
    first, and when the directory is not there it is made before the
    missing saver is noticed: the error is [AttributeError] unless
    [os.path.exists] or [os.makedirs] raised before.  [self] is left as it
    was. *)
Theorem save_without_saver (sess : handle) w s s' o d :
  checkpoint_dir (st_self s) = Some d → saver (st_self s) = None →
  save sess w s = (s', o) →
  st_self s' = st_self s ∧
  ∃ e, o = Raised e ∧
    match w_bool w (st_trace s ++ [PathExists d]) with
    | Ret true => st_trace s' = st_trace s ++ [PathExists d] ∧ e = AttributeError
    | Ret false =>
        st_trace s' = st_trace s ++ [PathExists d; MakeDirs d] ∧
        match w_unit w (st_trace s ++ [PathExists d; MakeDirs d]) with
        | Ret _ => e = AttributeError
        | Exc e' => e = e'
        end
    | Exc e' => st_trace s' = st_trace s ++ [PathExists d] ∧ e = e'
    end.
Proof.
  intros Hd Hsv Hrun. unfold save in Hrun. inv_run.
  all: try congruence.
  all: split; [done|]; eexists; (split; [reflexivity|]).
  all: rewrite <- ?app_assoc in *; simpl in *.
  all: repeat match goal with
         | H : w_bool _ _ = _ |- _ => rewrite H; clear H
         | H : w_unit _ _ = _ |- _ => rewrite H; clear H
         end.
  all: repeat match goal with b : bool |- _ => destruct b end; simpl in *; done.
Qed.

(** X5 at work: the directory is not there, and is made. *)
Lemma save_without_saver_witness :
  (save 6%nat (scripted counting (fun _ => false) false)
     (start (set_checkpoint_dir "ckpt" blank))).2 = Raised AttributeError ∧
  st_trace (save 6%nat (scripted counting (fun _ => false) false)
              (start (set_checkpoint_dir "ckpt" blank))).1 =
    [PathExists "ckpt"; MakeDirs "ckpt"].
Proof.
  destruct (save_without_saver 6%nat (scripted counting (fun _ => false) false)
              (start (set_checkpoint_dir "ckpt" blank)) _ _ "ckpt"
              ltac:(reflexivity) ltac:(reflexivity) (surjective_pairing _))
    as (_ & e & Ho & H).
  vm_compute in H. destruct H as [_ ->]. split; [exact Ho|].
  vm_compute. reflexivity.
Defined.

(** ** The evaluation step *)

(** X8: [_test_step] asks the hook for the fetches and runs the session
    at most once (it does not run the global step on its own first, as
    [_train_step] does), and only when [self.global_step] is set and
    [self.is_correct] has a first item: without the attribute, or with an
    empty list, it raises before the session is run.  Its calls are a
    prefix of: the hook, the run of the fetches, [time.time()]; it saves
    nothing and writes no summary.  When it returns, it made the three calls
    and its step is the one the run of the fetches gave. *)
Theorem test_step_runs_the_session_once (is_correct : option (list handle))
    (sess : handle) w s s' o :
  _test_step is_correct sess w s = (s', o) →
  o ≠ Running ∧ st_step s' = st_step s ∧
  ∃ seg, st_trace s' = st_trace s ++ seg ∧
    (∃ rest, test_step_calls sess = seg ++ rest) ∧
    (SessRunFetch sess ∈ seg →
     is_Some (global_step (st_self s')) ∧
     ∃ h rest, is_correct = Some (h :: rest)) ∧
    (is_correct = None → ∃ e, o = Raised e) ∧
    (is_correct = Some [] → ∃ e, o = Raised e) ∧
    (∀ st, o = Normal st →
       seg = test_step_calls sess ∧
       w_int w (st_trace s ++ [Hook_tofetch; SessRunFetch sess]) = Ret st).
Proof.
  intros Hrun. unfold _test_step, first_item in Hrun.
  destruct is_correct as [[|h l]|]; inv_run.
  all: split; [not_running|]; split; [done|]; segment.
  all: split; [unfold test_step_calls; simpl; eauto|].
  all: split; [rewrite ?elem_of_cons, ?elem_of_nil; intros Hin;
               decompose [or] Hin; try discriminate; try done; split; eauto|].
  all: split; [intros; simplify_eq; eauto|].
  all: split; [intros; simplify_eq; eauto|].
  all: intros; simplify_eq; rewrite <- ?app_assoc in *; simpl in *; eauto.
Qed.

(** X8 at work: an evaluation step on a model that was only constructed. *)
Lemma test_step_runs_the_session_once_witness :
  ∃ seg,
    st_trace (_test_step (Some [9%nat]) 6%nat endless (start sample_model)).1 =
      st_trace (start sample_model) ++ seg ∧
    ∃ rest, test_step_calls 6%nat = seg ++ rest.
Proof.
  destruct (test_step_runs_the_session_once (Some [9%nat]) 6%nat endless
              (start sample_model) _ _ (surjective_pairing _))
    as (_ & _ & seg & Htr & Hpre & _).
  exists seg. split; [exact Htr|exact Hpre].
Defined.

(** ** Runs of [train], case by case *)

(** Case analysis on a call, and on its message when it is a [print]. *)
Ltac by_call c :=
  destruct c; simpl; try done;
  try match goal with m : message |- _ => destruct m; simpl; done end.

(** Membership in a segment made of parts, by a part that is known. *)
Ltac find_in :=
  first [ assumption
        | apply elem_of_app; left; assumption
        | apply elem_of_app; right; find_in ].

Lemma absent_by_test (p : call -> bool) (seg : trace) (c : call) :
  Forall (fun c => p c = false) seg → p c = true → c ∉ seg.
Proof.
  intros Hall Hc Hin. rewrite Forall_forall in Hall.
  specialize (Hall _ Hin). congruence.
Qed.

Lemma load_not_running (sess : handle) (step : option Z) w s s' :
  load sess step w s ≠ (s', Running).
Proof. intros Hrun. unfold load in Hrun. destruct step; inv_run. Qed.

Lemma load_calls_precede D blk :
  load_calls D blk → Forall (fun c => follows_load c = false) blk.
Proof. intros H. destruct H; each_call ltac:(done). Qed.

Lemma train_try_grows (fuel : nat) (sess coord : handle) (ss cs : option Z)
    w s s' o :
  train_try fuel sess coord ss cs w s = (s', o) →
  ∃ seg, st_trace s' = st_trace s ++ seg.
Proof.
  intros Hrun.
  destruct (emits_train_try w (fun _ => True) (fun _ => True)
              ltac:(done) ltac:(done) true false ss cs eq_refl
              fuel sess coord s s' o Logic.I Hrun) as (_ & (seg & Htr & _) & _).
  by exists seg.
Qed.

Lemma train_session_rest_grows (fuel : nat) (resume : bool) (ss cs : option Z)
    (sess : handle) w s s' o :
  train_session_rest fuel resume ss cs sess w s = (s', o) →
  ∃ seg, st_trace s' = st_trace s ++ seg.
Proof.
  intros Hrun.
  destruct (emits_train_session_rest w (fun _ => True) (fun _ => True)
              ltac:(done) ltac:(done) true resume ss cs eq_refl
              fuel sess s s' o Logic.I Hrun) as (_ & (seg & Htr & _) & _).
  by exists seg.
Qed.

(** The statements of the [with] block, case by case on how far they
    get. *)
Lemma train_session_rest_run (fuel : nat) (resume : bool) (ss cs : option Z)
    (sess : handle) w s s' o :
  train_session_rest fuel resume ss cs sess w s = (s', o) →
  (∃ e pre, o = Raised e ∧ st_self s' = st_self s ∧
     st_trace s' = st_trace s ++ pre ∧
     Forall (fun c => follows_load c = false) pre) ∨
  (∃ e ld mid, o = Raised e ∧ st_self s' = st_self s ∧
     resumed resume sess ld ∧
     st_trace s' = st_trace s ++ init_block ++ ld ++ mid ∧
     Forall (starts_threads sess) mid) ∨
  (∃ coord threads ld s0 s2 o2 tail,
     resumed resume sess ld ∧
     st_trace s0 =
       st_trace s ++ init_block ++ ld ++
       [Print MsgStartingCoordinator; CoordinatorNew] ++
       start_block sess coord ∧
     st_self s0 = st_self s ∧ st_step s0 = 0 ∧
     train_try fuel sess coord ss cs w s0 = (s2, o2) ∧
     st_trace s' = st_trace s2 ++ tail ∧ st_self s' = st_self s2 ∧
     Forall (fun c => c ∈ join_block coord threads) tail ∧
     (tail = [] ∧ o = o2 ∨ o2 = Normal tt)).
Proof.
  intros Hrun. unfold train_session_rest in Hrun. inv_run.
  all: try match goal with
           | H : load _ _ _ _ = (_, Running) |- _ =>
               by apply load_not_running in H
           end.
  all: try match goal with
           | H : load _ _ _ _ = (_, Normal _) |- _ =>
               apply load_returns in H
                 as (d & sv & p & st & _ & Htr & Hself & Hstep)
           end.
  all: try match goal with
           | H : load _ _ _ ?s1 = (_, Raised _) |- _ =>
               destruct (load_shape w (fun _ => True) (fun _ => True)
                           ltac:(done) sess _ _ _ Logic.I H)
                 as (Hself & Hstep & blk & Htr & Hblk);
               apply load_calls_precede in Hblk; clear H
           end.
  all: simpl in *.
  (* the [try] statement was entered *)
  all: try match goal with
       | H : train_try _ _ ?coord _ _ _ ?s0 = (?s2, ?o2),
         Ht : w_threads _ _ = Ret ?threads |- _ =>
           right; right;
           first
             [ match goal with
               | Htr : st_trace _ = _ ++ [LatestCheckpoint ?d; SaverRestore ?sv _ ?p; _; Print (MsgLoaded ?st _)] |- _ =>
                   exists coord, threads, (load_block sess sv d p st), s0, s2, o2;
                   eexists; split; [by exists sv, d, p, st|]
               end
             | exists coord, threads, [], s0, s2, o2; eexists; split; [done|] ];
           (split; [simpl; rewrite ?Htr; rewrite <- ?app_assoc; reflexivity|]);
           (split; [done|]); (split; [done|]); (split; [exact H|]);
           (split; [first [ instantiate (1 := []); by rewrite app_nil_r
                          | rewrite <- ?app_assoc; simpl; reflexivity ]|]);
           (split; [done|]);
           (split; [unfold join_block; each_call ltac:(rewrite !elem_of_cons; auto)|]);
           auto
       end.
  (* a failure before the coordinator is made *)
  all: try solve
       [ left; eexists _, _; split; [reflexivity|]; split; [done|];
         split; [rewrite ?Htr; rewrite <- ?app_assoc; simpl; reflexivity|];
         repeat (constructor; [done|]); first [constructor | assumption] ].
  (* a failure between [load] and the [try] statement *)
  all: right; left;
       first
         [ match goal with
           | Htr : st_trace _ = _ ++ [LatestCheckpoint ?d; SaverRestore ?sv _ ?p; _; Print (MsgLoaded ?st _)] |- _ =>
               eexists _, (load_block sess sv d p st), _;
               split; [reflexivity|]; split; [done|];
               split; [by exists sv, d, p, st|]
           end
         | eexists _, [], _; split; [reflexivity|]; split; [done|];
           split; [done|] ];
       (split; [simpl; rewrite ?Htr; rewrite <- ?app_assoc; simpl; reflexivity|]);
       unfold starts_threads; each_call ltac:(eauto 10).
Qed.

(** [train], case by case on how far it gets: it fails while it builds
    the graph or opens the session; or it opens the session and fails
    before the summary writer is there; or it runs the statements of the
    [with] block. *)
Lemma train_run (fuel : nat) (lr : pyval) (resume : bool) (ss cs : option Z)
    w s s' o :
  train fuel lr resume ss cs w s = (s', o) →
  (∃ e pre, o = Raised e ∧ Forall (fun c => builds_graph c = true) pre ∧
     (st_trace s' = st_trace s ++ pre ∨
      st_trace s' = st_trace s ++ pre ++ [SessionOpen] ∧
      w_handle w (st_trace s ++ pre ++ [SessionOpen]) = Exc e)) ∨
  (∃ pre sess,
     Forall (fun c => builds_graph c = true) pre ∧
     w_handle w (st_trace s ++ pre ++ [SessionOpen]) = Ret sess ∧
     ((∃ e mid, o = Raised e ∧
         st_trace s' =
           st_trace s ++ pre ++ [SessionOpen] ++ mid ++ [SessionClose sess] ∧
         (mid = [] ∨ ∃ d, mid = [FileWriterOpen d])) ∨
      (∃ d s2 s3 o1,
         st_trace s2 = st_trace s ++ pre ++ [SessionOpen; FileWriterOpen d] ∧
         train_session_rest fuel resume ss cs sess w s2 = (s3, o1) ∧
         (o1 = Running ∧ s' = s3 ∧ o = Running ∨
          o1 ≠ Running ∧
          st_trace s' = st_trace s3 ++ [SessionClose sess] ∧
          st_self s' = st_self s3 ∧ st_step s' = st_step s3 ∧
          (o = o1 ∨ ∃ e, o = Raised e))))).
Proof.
  intros Hrun. unfold train in Hrun. inv_run.
  all: rewrite <- ?app_assoc in *; simpl in *.
  all: try solve
       [ left; eexists _, _; split; [reflexivity|];
         split; [|left; reflexivity]; each_call ltac:(done) ].
  all: try solve
       [ left;
         match goal with
         | H : w_handle _ (_ ++ ?l) = Exc ?e |- _ => exists e, (removelast l)
         end;
         simpl; split; [reflexivity|]; split; [each_call ltac:(done)|];
         right; split; [reflexivity|assumption] ].
  right.
  match goal with
  | H : w_handle _ (_ ++ ?l) = Ret ?sess |- context [SessionOpen] =>
      match l with
      | context [SessionOpen] => exists (removelast l), sess
      end
  end.
  simpl. split; [each_call ltac:(done)|]. split; [assumption|].
  apply try_finally_inv in Hrun
    as [[Hbody ->]|(s1 & o1 & o2 & Hbody & Hnr & Hfin & ->)].
  - right. unfold train_session in Hbody. inv_run.
    eexists _, _, _, Running. split; [|split; [eassumption|by left]].
    simpl. by rewrite <- app_assoc.
  - apply ext_inv in Hfin as [-> Hfin].
    unfold train_session in Hbody. inv_run.
    + right. eexists _, _, _, _. split; [|split; [eassumption|right]].
      { simpl. by rewrite <- app_assoc. }
      split; [done|]. split; [done|]. split; [done|]. split; [done|].
      destruct o2; [by left|by right; eexists|done].
    + left. destruct o2 as [[]|e2|]; [| |done].
      all: eexists _, [_]; split; [reflexivity|];
        (split; [|by right; eexists]); simpl; by rewrite <- !app_assoc.
    + left. destruct o2 as [[]|e2|]; [| |done].
      all: eexists _, []; split; [reflexivity|];
        (split; [|by left]); simpl; by rewrite <- !app_assoc.
Qed.

Lemma builds_graph_precedes (c : call) :
  builds_graph c = true →
  follows_load c = false ∧ is_save_call c = false ∧ shuts_down c = false ∧
  handler_message c = None ∧ c ≠ SessionOpen.
Proof. by_call c. Qed.

Lemma precedes_load_facts (c : call) :
  follows_load c = false →
  is_save_call c = false ∧ shuts_down c = false ∧ handler_message c = None ∧
  ∀ coord, c ≠ ShouldStop coord.
Proof. by_call c. Qed.

Lemma starts_threads_facts (sess : handle) (c : call) :
  starts_threads sess c →
  is_save_call c = false ∧ shuts_down c = false ∧ handler_message c = None ∧
  ∀ coord, c ≠ ShouldStop coord.
Proof.
  intros H. destruct H as [H|[H|[[coord H]|[H|H]]]]; by subst.
Qed.

Lemma resumed_facts (resume : bool) (sess : handle) (ld : trace) :
  resumed resume sess ld →
  Forall (fun c => follows_load c = false) ld.
Proof.
  unfold resumed. destruct resume.
  - intros (sv & d & p & st & ->). unfold load_block. each_call ltac:(done).
  - intros ->. constructor.
Qed.

Lemma train_loop_first_call (fuel : nat) (sess coord : handle)
    (ss cs : option Z) w s s' o :
  train_loop (S fuel) sess coord ss cs w s = (s', o) →
  ∃ rest, st_trace s' = st_trace s ++ ShouldStop coord :: rest.
Proof.
  intros Hrun. simpl in Hrun.
  apply bind_inv in Hrun
    as [(s1 & stop & Hstop & Hrun) | [(e & Hstop & ->) | [Hstop _]]];
    apply ext_inv in Hstop as [-> Hstop]; [| |done].
  2:{ by exists []. }
  destruct stop.
  { apply ret_inv in Hrun as [-> _]. by exists []. }
  apply bind_inv in Hrun
    as [(s2 & [] & Hit & Hrun) | [(e & Hit & ->) | [Hit ->]]];
    destruct (train_iteration_fetches _ _ _ _ _ _ _ Hit)
      as (_ & seg1 & Htr1 & _).
  - destruct (train_loop_calls _ _ _ _ _ _ _ _ _ Hrun) as (seg2 & Htr2 & _).
    exists (seg1 ++ seg2). rewrite Htr2, Htr1. simpl.
    by rewrite <- !app_assoc.
  - exists seg1. rewrite Htr1. simpl. by rewrite <- !app_assoc.
  - exists seg1. rewrite Htr1. simpl. by rewrite <- !app_assoc.
Qed.

Lemma train_try_first_call (fuel : nat) (sess coord : handle)
    (ss cs : option Z) w s s' o :
  train_try (S fuel) sess coord ss cs w s = (s', o) →
  ∃ rest, st_trace s' = st_trace s ++ ShouldStop coord :: rest.
Proof.
  intros Hrun.
  destruct (train_try_run _ _ _ _ _ _ _ _ _ Hrun) as (s1 & o1 & Hloop & Hcase).
  apply train_loop_first_call in Hloop as [rest Hrest].
  destruct o1 as [[]|e|].
  - destruct Hcase as (o3 & Hfin & _).
    destruct (train_finally_run _ _ _ _ _ Hfin) as (_ & _ & fin & Htr & _).
    exists (rest ++ fin). rewrite Htr, Hrest, <- app_assoc. done.
  - destruct Hcase as (s2 & o2 & o3 & blk & Htr2 & _ & _ & Hfin & _).
    destruct (train_finally_run _ _ _ _ _ Hfin) as (_ & _ & fin & Htr & _).
    exists (rest ++ blk ++ fin).
    rewrite Htr, Htr2, Hrest, <- !app_assoc. done.
  - destruct Hcase as [-> _]. by exists rest.
Qed.

(** ** The session *)

(** X1: [train] closes the session it opened.  A run that is over either
    failed while it built the graph or opened the session, or it opened a
    session and its last call closes that session, however the statements
    of the [with] block were left. *)
Theorem train_closes_its_session (fuel : nat) (lr : pyval) (resume : bool)
    (ss cs : option Z) w s s' o :
  train fuel lr resume ss cs w s = (s', o) → o ≠ Running →
  ∃ pre, Forall (fun c => builds_graph c = true) pre ∧
    ((∃ e, o = Raised e ∧
        (st_trace s' = st_trace s ++ pre ∨
         st_trace s' = st_trace s ++ pre ++ [SessionOpen] ∧
         w_handle w (st_trace s ++ pre ++ [SessionOpen]) = Exc e)) ∨
     (∃ sess body,
        w_handle w (st_trace s ++ pre ++ [SessionOpen]) = Ret sess ∧
        st_trace s' =
          st_trace s ++ pre ++ SessionOpen :: body ++ [SessionClose sess])).
Proof.
  intros Hrun Hnr.
  apply train_run in Hrun
    as [(e & pre & -> & Hpre & Htr)
       |(pre & sess & Hpre & Hsess &
         [(e & mid & -> & Htr & _)
         |(d & s2 & s3 & o1 & Htr2 & Hrest & Hend)])].
  - exists pre. split; [done|]. left. by exists e.
  - exists pre. split; [done|]. right. by exists sess, mid.
  - exists pre. split; [done|]. right.
    destruct Hend as [(_ & _ & ->)|(_ & Htr & _)]; [done|].
    apply train_session_rest_grows in Hrest as [seg Hseg].
    exists sess, (FileWriterOpen d :: seg). split; [done|].
    rewrite Htr, Hseg, Htr2, <- !app_assoc. simpl. by rewrite <- ?app_assoc.
Qed.

(** X1 at work: a run that is interrupted in its loop. *)
Lemma train_closes_its_session_witness :
  ∃ pre, Forall (fun c => builds_graph c = true) pre ∧
    ((∃ e, (train 9 (PyFloat 1 (-3)) false (Some 2) (Some 3)
              (failing_at 4 KeyboardInterrupt) (start sample_model)).2 =
           Raised e ∧
        (st_trace (train 9 (PyFloat 1 (-3)) false (Some 2) (Some 3)
                     (failing_at 4 KeyboardInterrupt) (start sample_model)).1 =
           st_trace (start sample_model) ++ pre ∨
         st_trace (train 9 (PyFloat 1 (-3)) false (Some 2) (Some 3)
                     (failing_at 4 KeyboardInterrupt) (start sample_model)).1 =
           st_trace (start sample_model) ++ pre ++ [SessionOpen] ∧
         w_handle (failing_at 4 KeyboardInterrupt)
           (st_trace (start sample_model) ++ pre ++ [SessionOpen]) = Exc e)) ∨
     (∃ sess body,
        w_handle (failing_at 4 KeyboardInterrupt)
          (st_trace (start sample_model) ++ pre ++ [SessionOpen]) = Ret sess ∧
        st_trace (train 9 (PyFloat 1 (-3)) false (Some 2) (Some 3)
                    (failing_at 4 KeyboardInterrupt) (start sample_model)).1 =
          st_trace (start sample_model) ++
          pre ++ SessionOpen :: body ++ [SessionClose sess])).
Proof.
  apply (train_closes_its_session 9 (PyFloat 1 (-3)) false (Some 2) (Some 3)
           (failing_at 4 KeyboardInterrupt) (start sample_model) _ _
           (surjective_pairing _)).
  vm_compute. discriminate.
Defined.

(** ** Resuming *)

(** X2: with [resume=True], [train] does nothing of what follows the call
    of [load] unless [load] was done: either the run made none of those
    calls (no coordinator, no data threads, no train step, no checkpoint
    saved, no shutdown), or its calls hold the four calls of a complete
    [load], with none of those calls before them. *)
Theorem resume_loads_before_the_threads (fuel : nat) (lr : pyval)
    (ss cs : option Z) w s s' o :
  train fuel lr true ss cs w s = (s', o) →
  ∃ seg, st_trace s' = st_trace s ++ seg ∧
    (Forall (fun c => follows_load c = false) seg ∨
     ∃ pre post sess sv d p st,
       seg = pre ++ load_block sess sv d p st ++ post ∧
       Forall (fun c => follows_load c = false) pre).
Proof.
  intros Hrun.
  apply train_run in Hrun
    as [(e & pre & -> & Hpre & Htr)
       |(pre & sess & Hpre & Hsess &
         [(e & mid & -> & Htr & Hmid)
         |(d & s2 & s3 & o1 & Htr2 & Hrest & Hend)])].
  all: assert (Forall (fun c => follows_load c = false) pre) as Hpre'
         by (eapply Forall_impl; [exact Hpre|];
             by intros c [? _]%builds_graph_precedes).
  - destruct Htr as [Htr|[Htr _]]; eexists; (split; [exact Htr|]); left;
      [done|]. apply Forall_app. split; [done|]. by constructor.
  - eexists. split; [exact Htr|]. left.
    apply Forall_app. split; [done|]. constructor; [done|].
    apply Forall_app. split; [|by constructor].
    destruct Hmid as [->|[d' ->]]; by repeat constructor.
  - assert (∃ fin, st_trace s' = st_trace s3 ++ fin ∧
                   Forall (fun c => follows_load c = false) fin)
      as (fin & Htr & Hfin).
    { destruct Hend as [(_ & -> & _)|(_ & Htr & _)].
      - exists []. by rewrite app_nil_r.
      - exists [SessionClose sess]. split; [done|]. by repeat constructor. }
    apply train_session_rest_run in Hrest
      as [(e & pre' & _ & _ & Htr3 & Hpre3)
         |[(e & ld & mid & _ & _ & Hld & Htr3 & _)
          |(coord & threads & ld & s0 & s4 & o2 & tail & Hld & Htr0 & _ & _
            & Htry & Htr3 & _)]].
    + eexists. split.
      { rewrite Htr, Htr3, Htr2, <- !app_assoc. reflexivity. }
      left. repeat (apply Forall_app; split; try done).
      by repeat constructor.
    + destruct Hld as (sv & d' & p & st & ->).
      eexists. split.
      { rewrite Htr, Htr3, Htr2, <- !app_assoc. reflexivity. }
      right.
      exists (pre ++ [SessionOpen; FileWriterOpen d] ++ init_block),
        (mid ++ fin), sess, sv, d', p, st.
      split; [by rewrite <- !app_assoc|].
      repeat (apply Forall_app; split; try done); by repeat constructor.
    + destruct Hld as (sv & d' & p & st & ->).
      apply train_try_grows in Htry as [mid Hmid].
      eexists. split.
      { rewrite Htr, Htr3, Hmid, Htr0, Htr2, <- !app_assoc. reflexivity. }
      right.
      exists (pre ++ [SessionOpen; FileWriterOpen d] ++ init_block),
        ([Print MsgStartingCoordinator; CoordinatorNew] ++
         start_block sess coord ++ mid ++ tail ++ fin), sess, sv, d', p, st.
      split; [by rewrite <- !app_assoc|].
      repeat (apply Forall_app; split; try done); by repeat constructor.
Qed.

(** X2 at work: [saver.restore] raises. *)
Lemma resume_loads_before_the_threads_witness :
  ∃ seg,
    st_trace (train 3 (PyFloat 1 (-3)) true (Some 2) (Some 3)
                (raising_at 11 ValueError endless) (start sample_model)).1 =
      st_trace (start sample_model) ++ seg ∧
    (Forall (fun c => follows_load c = false) seg ∨
     ∃ pre post sess sv d p st,
       seg = pre ++ load_block sess sv d p st ++ post ∧
       Forall (fun c => follows_load c = false) pre).
Proof.
  apply (resume_loads_before_the_threads 3 (PyFloat 1 (-3)) (Some 2) (Some 3)
           (raising_at 11 ValueError endless) (start sample_model) _ _
           (surjective_pairing _)).
Defined.

(** ** Failures before the loop *)

(** X3: the statements of [train] before the [try] statement are not
    protected.  A run that never came to the first test of
    [coord.should_stop()] has raised, and it has neither saved a checkpoint
    nor asked the coordinator to stop, joined the threads or closed the
    summary writer, even when the writer was open and the data threads were
    started. *)
Theorem failure_before_the_loop_is_not_handled (fuel : nat) (lr : pyval)
    (resume : bool) (ss cs : option Z) w s s' o seg :
  train (S fuel) lr resume ss cs w s = (s', o) →
  st_trace s' = st_trace s ++ seg →
  (∀ coord, ShouldStop coord ∉ seg) →
  (∃ e, o = Raised e) ∧
  Forall (fun c => is_save_call c = false ∧ shuts_down c = false) seg.
Proof.
  intros Hrun Hseg Hnone.
  assert (∀ l, Forall (fun c => follows_load c = false) l →
               Forall (fun c => is_save_call c = false ∧ shuts_down c = false) l)
    as Hweak.
  { intros l Hl. eapply Forall_impl; [exact Hl|].
    intros c (? & ? & _)%precedes_load_facts. done. }
  apply train_run in Hrun
    as [(e & pre & -> & Hpre & Htr)
       |(pre & sess & Hpre & Hsess &
         [(e & mid & -> & Htr & Hmid)
         |(d & s2 & s3 & o1 & Htr2 & Hrest & Hend)])].
  all: assert (Forall (fun c => follows_load c = false) pre) as Hpre'
         by (eapply Forall_impl; [exact Hpre|];
             by intros c [? _]%builds_graph_precedes).
  - split; [by exists e|]. apply Hweak.
    destruct Htr as [Htr|[Htr _]]; rewrite Htr in Hseg;
      apply app_inv_head in Hseg as <-; [done|].
    apply Forall_app. split; [done|]. by repeat constructor.
  - split; [by exists e|]. apply Hweak.
    rewrite Htr in Hseg. apply app_inv_head in Hseg as <-.
    apply Forall_app. split; [done|]. constructor; [done|].
    apply Forall_app. split; [|by repeat constructor].
    destruct Hmid as [->|[d' ->]]; by repeat constructor.
  - apply train_session_rest_run in Hrest
      as [(e & pre' & -> & _ & Htr3 & Hpre3)
         |[(e & ld & mid & -> & _ & Hld & Htr3 & Hmid)
          |(coord & threads & ld & s0 & s4 & o2 & tail & Hld & Htr0 & _ & _
            & Htry & Htr3 & _)]].
    + destruct Hend as [(? & _)|(_ & Htr & _ & _ & Ho)]; [done|].
      split; [destruct Ho as [->|Ho]; eauto|]. apply Hweak.
      rewrite Htr, Htr3, Htr2, <- !app_assoc in Hseg.
      apply app_inv_head in Hseg as <-.
      repeat (apply Forall_app; split; try done); by repeat constructor.
    + destruct Hend as [(? & _)|(_ & Htr & _ & _ & Ho)]; [done|].
      split; [destruct Ho as [->|Ho]; eauto|].
      rewrite Htr, Htr3, Htr2, <- !app_assoc in Hseg.
      apply app_inv_head in Hseg as <-.
      apply resumed_facts in Hld.
      repeat (apply Forall_app; split); try (apply Hweak; done);
        try (apply Hweak; by repeat constructor).
      eapply Forall_impl; [exact Hmid|].
      by intros c (? & ? & _)%starts_threads_facts.
    + exfalso. apply train_try_first_call in Htry as [rest Hrest].
      assert (∃ fin, st_trace s' = st_trace s3 ++ fin) as [fin Htr].
      { destruct Hend as [(_ & -> & _)|(_ & Htr & _)].
        - exists []. by rewrite app_nil_r.
        - by eexists. }
      rewrite Htr, Htr3, Hrest, Htr0, Htr2, <- !app_assoc in Hseg.
      apply app_inv_head in Hseg as <-.
      apply (Hnone coord).
      assert (ShouldStop coord ∈ ShouldStop coord :: rest) as Hin
        by (apply elem_of_cons; by left).
      find_in.
Qed.

(** X3 at work: an interrupt at [time.time()], right after the data threads
    were started: the threads are neither asked to stop nor joined. *)
Lemma failure_before_the_loop_is_not_handled_witness :
  (∃ e, (train 3 (PyFloat 1 (-3)) false (Some 2) (Some 3)
           (raising_at 14 KeyboardInterrupt endless) (start sample_model)).2 =
        Raised e) ∧
  Forall (fun c => is_save_call c = false ∧ shuts_down c = false)
    (st_trace (train 3 (PyFloat 1 (-3)) false (Some 2) (Some 3)
                 (raising_at 14 KeyboardInterrupt endless)
                 (start sample_model)).1) ∧
  StartQueueRunners 6%nat 12%nat ∈
    st_trace (train 3 (PyFloat 1 (-3)) false (Some 2) (Some 3)
                (raising_at 14 KeyboardInterrupt endless)
                (start sample_model)).1.
Proof.
  assert (Forall (fun c => is_loop_call c = false)
            (st_trace (train 3 (PyFloat 1 (-3)) false (Some 2) (Some 3)
                         (raising_at 14 KeyboardInterrupt endless)
                         (start sample_model)).1)) as Hnone.
  { apply (bool_decide_unpack _). by vm_compute. }
  destruct (failure_before_the_loop_is_not_handled 2 (PyFloat 1 (-3)) false
              (Some 2) (Some 3) (raising_at 14 KeyboardInterrupt endless)
              (start sample_model) _ _ _
              (surjective_pairing _) eq_refl
              (fun coord => absent_by_test is_loop_call _ (ShouldStop coord)
                              Hnone eq_refl))
    as [He Hall].
  split; [exact He|]. split; [exact Hall|].
  apply (bool_decide_unpack _). by vm_compute.
Defined.

(** ** The step the handlers report *)

Lemma _train_step_returns (sess : handle) w s s' st :
  _train_step sess w s = (s', Normal st) →
  w_int w (st_trace s ++ [Hook_tofetch; SessRunGlobalStep sess;
                          SessRunFetch sess]) = Ret st.
Proof.
  intros Hrun. unfold _train_step in Hrun. inv_run.
  by rewrite <- !app_assoc in *.
Qed.

Lemma fetched_app_l w done a b st :
  fetched w done a st → fetched w done (a ++ b) st.
Proof.
  intros (pre & sess & post & -> & Hw). exists pre, sess, (post ++ b).
  split; [|done]. by rewrite <- app_assoc.
Qed.

Lemma fetched_app_r w done a b st :
  fetched w (done ++ a) b st → fetched w done (a ++ b) st.
Proof.
  intros (pre & sess & post & -> & Hw). exists (a ++ pre), sess, post.
  split; [by rewrite <- app_assoc|]. by rewrite <- !app_assoc in *.
Qed.

(** The local variable [step] of [train] is what the last train step that
    returned gave it; until then it is what it was. *)
Lemma train_loop_step (fuel : nat) (sess coord : handle) (ss cs : option Z)
    w s s' o :
  train_loop fuel sess coord ss cs w s = (s', o) →
  ∃ seg, st_trace s' = st_trace s ++ seg ∧
    (st_step s' = st_step s ∨ fetched w (st_trace s) seg (st_step s')).
Proof.
  revert s. induction fuel as [|fuel IH]; intros s Hrun; simpl in Hrun.
  - apply running_inv in Hrun as [-> _]. exists []. rewrite app_nil_r. auto.
  - apply bind_inv in Hrun
      as [(s1 & stop & Hstop & Hrun) | [(e & Hstop & ->) | [Hstop _]]];
      apply ext_inv in Hstop as [-> Hstop]; [| |done].
    2:{ exists [ShouldStop coord]. auto. }
    destruct stop.
    { apply ret_inv in Hrun as [-> ->]. exists [ShouldStop coord]. auto. }
    assert (∀ s2 o2, train_iteration sess ss cs w (emit (ShouldStop coord) s)
                       = (s2, o2) →
              ∃ seg, st_trace s2 = st_trace s ++ seg ∧
                (st_step s2 = st_step s ∨
                 fetched w (st_trace s) seg (st_step s2))) as Hiter.
    { intros s2 o2 Hit.
      destruct (train_iteration_run _ _ _ _ _ _ _ Hit)
        as [(e & seg & _ & _ & Hst & Htr & _)
           |(s1 & seg1 & seg2 & Hts & _ & Htr & _)].
      - exists (ShouldStop coord :: seg). split; [|by left].
        rewrite Htr. simpl. by rewrite <- app_assoc.
      - exists (ShouldStop coord :: train_step_calls sess ++ seg1 ++ seg2).
        split. { rewrite Htr. simpl. by rewrite <- app_assoc. }
        right. apply _train_step_returns in Hts. simpl in Hts.
        exists [ShouldStop coord; Hook_tofetch; SessRunGlobalStep sess], sess,
          (TimeTime :: seg1 ++ seg2).
        split; [done|]. by rewrite <- !app_assoc in *. }
    apply bind_inv in Hrun
      as [(s2 & [] & Hit & Hrun) | [(e & Hit & ->) | [Hit ->]]].
    + destruct (Hiter _ _ Hit) as (seg1 & Htr1 & Hst1).
      destruct (IH s2 Hrun) as (seg2 & Htr2 & Hst2).
      exists (seg1 ++ seg2). split; [by rewrite Htr2, Htr1, app_assoc|].
      destruct Hst2 as [Hst2|Hst2].
      * rewrite Hst2. destruct Hst1 as [?|Hst1]; [by left|right].
        by apply fetched_app_l.
      * right. apply fetched_app_r. by rewrite <- Htr1.
    + by apply Hiter in Hit.
    + by apply Hiter in Hit.
Qed.

Lemma train_finally_calls (coord : handle) w s s' o :
  train_finally coord w s = (s', o) →
  ∃ seg, st_trace s' = st_trace s ++ seg ∧
    Forall (fun c => c = Print MsgShuttingDown ∨ c = RequestStop coord ∨
                     ∃ wr, c = WriterClose wr) seg.
Proof.
  intros Hrun. unfold train_finally in Hrun. inv_run.
  all: segment; each_call ltac:(eauto).
Qed.

Lemma loop_call_no_handler_message D resume ss cs (c : call) :
  allowed D false resume ss cs c → handler_message c = None.
Proof.
  intros (_ & Hm & _). destruct c as [m| | | | | | | | | | | | | | | | | | | | |
                                      | | | | | | | | | |]; try done.
  destruct m; try done; by specialize (Hm _ eq_refl eq_refl eq_refl eq_refl).
Qed.

(** The [try] statement: the step in the message of an [except] clause. *)
Lemma train_try_handler_step (fuel : nat) (sess coord : handle)
    (ss cs : option Z) w s s' o :
  train_try fuel sess coord ss cs w s = (s', o) →
  ∃ seg, st_trace s' = st_trace s ++ seg ∧
    ∀ c st, c ∈ seg → handler_message c = Some st →
      st = st_step s ∨ fetched w (st_trace s) seg st.
Proof.
  intros Hrun.
  destruct (train_try_run _ _ _ _ _ _ _ _ _ Hrun) as (s1 & o1 & Hloop & Hcase).
  destruct (train_loop_calls _ _ _ _ _ _ _ _ _ Hloop) as (loop & Htr1 & Hall & _).
  destruct (train_loop_step _ _ _ _ _ _ _ _ _ Hloop) as (loop' & Htr1' & Hst).
  rewrite Htr1 in Htr1'. apply app_inv_head in Htr1' as <-.
  assert (Forall (fun c => handler_message c = None) loop) as Hloop_none.
  { eapply Forall_impl; [exact Hall|].
    intros c Hc. by eapply loop_call_no_handler_message. }
  assert (∀ l c st, Forall (fun c => handler_message c = None) l → c ∈ l →
                    handler_message c = Some st → False) as Hno.
  { intros l c st Hl Hin Hc. rewrite Forall_forall in Hl.
    specialize (Hl _ Hin). congruence. }
  assert (∀ fin, Forall (fun c => c = Print MsgShuttingDown ∨
                                  c = RequestStop coord ∨
                                  ∃ wr, c = WriterClose wr) fin →
                 Forall (fun c => handler_message c = None) fin) as Hfin_none.
  { intros fin Hfin. eapply Forall_impl; [exact Hfin|].
    intros c [->|[->|[wr ->]]]; done. }
  destruct o1 as [[]|e|].
  - destruct Hcase as (o3 & Hfin & _).
    destruct (train_finally_calls _ _ _ _ _ Hfin) as (fin & Htr & Hfin_calls).
    exists (loop ++ fin). split; [by rewrite Htr, Htr1, app_assoc|].
    intros c st [Hin|Hin]%elem_of_app Hc; exfalso; eauto.
  - destruct Hcase as (s2 & o2 & o3 & blk & Htr2 & _ & _ & Hfin & _ & Hblk).
    destruct (train_finally_calls _ _ _ _ _ Hfin) as (fin & Htr & Hfin_calls).
    exists (loop ++ blk ++ fin).
    split; [by rewrite Htr, Htr2, Htr1, <- !app_assoc|].
    intros c st Hin Hc.
    apply elem_of_app in Hin as [Hin|Hin]; [exfalso; eauto|].
    apply elem_of_app in Hin as [Hin|Hin]; [|exfalso; eauto].
    destruct Hblk as [(_ & _ & _ & -> & _)|(m & blk' & Hm & -> & Hsave & _)];
      [by apply elem_of_nil in Hin|].
    apply elem_of_cons in Hin as [->|Hin].
    + assert (st = st_step s1) as ->.
      { destruct Hm as [[_ ->]|(_ & _ & ->)]; simpl in Hc; congruence. }
      destruct Hst as [->|Hst]; [by left|right]. by apply fetched_app_l.
    + exfalso. apply save_calls_are_save_calls in Hsave.
      rewrite Forall_forall in Hsave. specialize (Hsave _ Hin).
      by destruct c as [[]| | | | | | | | | | | | | | | | | | | | |
                        | | | | | | | | | |].
  - destruct Hcase as [-> _]. exists loop. split; [done|].
    intros c st Hin Hc. exfalso. eauto.
Qed.

(** X4: the step in the message of an [except] clause of [train]
    ("Interrupted training at step ...", "Training completed at step ...")
    is the local variable [step]: 0, as set right before the [try]
    statement, or a step that a run of the fetches of this very call of
    [train] returned.  So a run that is interrupted before its first train
    step reports step 0, also when it has resumed from a checkpoint. *)
Theorem handler_reports_zero_or_a_fetched_step (fuel : nat) (lr : pyval)
    (resume : bool) (ss cs : option Z) w s s' o :
  train fuel lr resume ss cs w s = (s', o) →
  ∃ seg, st_trace s' = st_trace s ++ seg ∧
    ∀ c st, c ∈ seg → handler_message c = Some st →
      st = 0 ∨ fetched w (st_trace s) seg st.
Proof.
  intros Hrun.
  assert (∀ seg, Forall (fun c => handler_message c = None) seg →
            ∀ c st, c ∈ seg → handler_message c = Some st →
              st = 0 ∨ fetched w (st_trace s) seg st) as Hnone.
  { intros seg Hseg c st Hin Hc. rewrite Forall_forall in Hseg.
    specialize (Hseg _ Hin). congruence. }
  assert (∀ l, Forall (fun c => follows_load c = false) l →
               Forall (fun c => handler_message c = None) l) as Hweak.
  { intros l Hl. eapply Forall_impl; [exact Hl|].
    intros c (_ & _ & ? & _)%precedes_load_facts. done. }
  apply train_run in Hrun
    as [(e & pre & -> & Hpre & Htr)
       |(pre & sess & Hpre & Hsess &
         [(e & mid & -> & Htr & Hmid)
         |(d & s2 & s3 & o1 & Htr2 & Hrest & Hend)])].
  all: assert (Forall (fun c => follows_load c = false) pre) as Hpre'
         by (eapply Forall_impl; [exact Hpre|];
             by intros c [? _]%builds_graph_precedes).
  - destruct Htr as [Htr|[Htr _]]; eexists; (split; [exact Htr|]);
      apply Hnone, Hweak; [done|].
    apply Forall_app. split; [done|]. by repeat constructor.
  - eexists. split; [exact Htr|]. apply Hnone, Hweak.
    apply Forall_app. split; [done|]. constructor; [done|].
    apply Forall_app. split; [|by repeat constructor].
    destruct Hmid as [->|[d' ->]]; by repeat constructor.
  - assert (∃ fin, st_trace s' = st_trace s3 ++ fin ∧
                   Forall (fun c => follows_load c = false) fin)
      as (fin & Htr & Hfin).
    { destruct Hend as [(_ & -> & _)|(_ & Htr & _)].
      - exists []. by rewrite app_nil_r.
      - exists [SessionClose sess]. split; [done|]. by repeat constructor. }
    apply train_session_rest_run in Hrest
      as [(e & pre' & _ & _ & Htr3 & Hpre3)
         |[(e & ld & mid & _ & _ & Hld & Htr3 & Hmid)
          |(coord & threads & ld & s0 & s4 & o2 & tail & Hld & Htr0 & _
            & Hstep0 & Htry & Htr3 & _ & Htail & _)]].
    + eexists. split.
      { rewrite Htr, Htr3, Htr2, <- !app_assoc. reflexivity. }
      apply Hnone, Hweak.
      repeat (apply Forall_app; split; try done). by repeat constructor.
    + eexists. split.
      { rewrite Htr, Htr3, Htr2, <- !app_assoc. reflexivity. }
      apply Hnone. apply resumed_facts in Hld.
      repeat (apply Forall_app; split); try (apply Hweak; done);
        try (apply Hweak; by repeat constructor).
      eapply Forall_impl; [exact Hmid|].
      by intros c (_ & _ & ? & _)%starts_threads_facts.
    + apply train_try_handler_step in Htry as (mid & Hmid & Hst).
      apply resumed_facts in Hld.
      set (A := pre ++ [SessionOpen; FileWriterOpen d] ++ init_block ++ ld ++
                [Print MsgStartingCoordinator; CoordinatorNew] ++
                start_block sess coord).
      assert (st_trace s0 = st_trace s ++ A) as HA.
      { unfold A. rewrite Htr0, Htr2, <- !app_assoc. reflexivity. }
      assert (Forall (fun c => handler_message c = None) A) as HA_none.
      { unfold A.
        repeat (apply Forall_app; split); try (apply Hweak; done);
          by repeat constructor. }
      assert (Forall (fun c => handler_message c = None) (tail ++ fin))
        as HB_none.
      { apply Forall_app. split; [|by apply Hweak].
        eapply Forall_impl; [exact Htail|]. intros c Hc.
        unfold join_block in Hc. rewrite !elem_of_cons, elem_of_nil in Hc.
        destruct Hc as [->|[->|[->|[]]]]; done. }
      exists (A ++ mid ++ tail ++ fin). split.
      { rewrite Htr, Htr3, Hmid, HA, <- !app_assoc. reflexivity. }
      intros c st Hin Hc.
      rewrite Forall_forall in HA_none. rewrite Forall_forall in HB_none.
      apply elem_of_app in Hin as [Hin|Hin];
        [specialize (HA_none _ Hin); congruence|].
      apply elem_of_app in Hin as [Hin|Hin];
        [|specialize (HB_none _ Hin); congruence].
      destruct (Hst c st Hin Hc) as [->|Hf]; [by left|right].
      apply fetched_app_r. apply fetched_app_l. by rewrite <- HA.
Qed.

(** X4 at work: a run that resumes and is interrupted in its first train
    step. *)
Lemma handler_reports_zero_or_a_fetched_step_witness :
  ∃ seg,
    st_trace (train 3 (PyFloat 1 (-3)) true (Some 2) (Some 3)
                (raising_at 20 KeyboardInterrupt endless)
                (start sample_model)).1 =
      st_trace (start sample_model) ++ seg ∧
    ∀ c st, c ∈ seg → handler_message c = Some st →
      st = 0 ∨
      fetched (raising_at 20 KeyboardInterrupt endless)
        (st_trace (start sample_model)) seg st.
Proof.
  apply (handler_reports_zero_or_a_fetched_step 3 (PyFloat 1 (-3)) true
           (Some 2) (Some 3) (raising_at 20 KeyboardInterrupt endless)
           (start sample_model) _ _ (surjective_pairing _)).
Defined.

(** ** Leaving the loop by the stop flag *)

(** X12: a loop that ends because the coordinator asks to stop saves no
    final checkpoint.  When the [while] statement returns, the [try]
    statement goes on with the [finally] clause alone: nothing is saved, no
    message but the one of the shutdown is printed, and the calls are those
    of the [finally] clause when it returns. *)
Theorem stop_request_saves_nothing (fuel : nat) (sess coord : handle)
    (ss cs : option Z) w s s1 :
  train_loop fuel sess coord ss cs w s = (s1, Normal tt) →
  ∃ s2 o seg,
    train_try fuel sess coord ss cs w s = (s2, o) ∧ o ≠ Running ∧
    st_self s2 = st_self s1 ∧ st_trace s2 = st_trace s1 ++ seg ∧
    Forall (fun c => is_save_call c = false) seg ∧
    (∀ m, Print m ∈ seg → m = MsgShuttingDown) ∧
    (o = Normal tt → ∃ wr, seg = finally_block coord wr).
Proof.
  intros Hloop.
  destruct (train_try fuel sess coord ss cs w s) as [s2 o] eqn:Htry.
  destruct (train_try_run _ _ _ _ _ _ _ _ _ Htry) as (s1' & o1 & Hloop' & Hcase).
  rewrite Hloop in Hloop'. injection Hloop' as <- <-.
  destruct Hcase as (o3 & Hfin & ->).
  destruct (train_finally_run _ _ _ _ _ Hfin) as (Ho3 & Hself & _).
  destruct (train_finally_calls _ _ _ _ _ Hfin) as (fin & Htr & Hcalls).
  exists s2, (match o3 with
              | Normal _ => Normal tt
              | Raised e => Raised e
              | Running => Running
              end), fin.
  split; [done|]. split; [by destruct o3|]. split; [done|]. split; [done|].
  split.
  { eapply Forall_impl; [exact Hcalls|]. by intros c [->|[->|[wr ->]]]. }
  split.
  { intros m Hin. rewrite Forall_forall in Hcalls.
    destruct (Hcalls _ Hin) as [[= ->]|[?|[wr ?]]]; done. }
  destruct o3 as [[]| |]; [|done..]. intros _.
  apply train_finally_returns in Hfin as (wr & Htr' & _).
  exists wr. rewrite Htr in Htr'. by apply app_inv_head in Htr'.
Qed.

(** X12 at work: the coordinator asks to stop after two train steps. *)
Lemma stop_request_saves_nothing_witness :
  ∃ s2 o seg,
    train_try 5 6%nat 12%nat (Some 2) (Some 3) (stopping_after 2) at_loop =
      (s2, o) ∧ o ≠ Running ∧
    st_trace s2 =
      st_trace (train_loop 5 6%nat 12%nat (Some 2) (Some 3)
                  (stopping_after 2) at_loop).1 ++ seg ∧
    Forall (fun c => is_save_call c = false) seg.
Proof.
  assert (train_loop 5 6%nat 12%nat (Some 2) (Some 3) (stopping_after 2)
            at_loop =
          ((train_loop 5 6%nat 12%nat (Some 2) (Some 3) (stopping_after 2)
              at_loop).1, Normal tt)) as Hloop
    by (vm_compute; reflexivity).
  destruct (stop_request_saves_nothing 5 6%nat 12%nat (Some 2) (Some 3)
              (stopping_after 2) at_loop _ Hloop)
    as (s2 & o & seg & Htry & Ho & _ & Htr & Hsave & _).
  exists s2, o, seg. split; [exact Htry|]. split; [exact Ho|].
  split; [exact Htr|exact Hsave].
Defined.

(** ** What [train] changes of the object *)

(** What the hooks and the three assignments of [train] keep, [train]
    keeps. *)
Lemma train_keeps (I : BaseModel -> Prop) (fuel : nat) (lr : pyval)
    (resume : bool) (ss cs : option Z) w s s' o :
  (∀ tr o, I o → I (w_hook w tr o).1) →
  (∀ v o, I o → I (set_summaries v o)) →
  (∀ v o, I o → I (set_merged_summaries v o)) →
  (∀ v o, I o → I (set_summary_writer v o)) →
  I (st_self s) → train fuel lr resume ss cs w s = (s', o) → I (st_self s').
Proof.
  intros Hhook Hs Hm Hw HI Hrun. unfold train in Hrun. inv_run.
  all: try solve [repeat first [assumption | apply Hhook | apply Hs | apply Hm]].
  apply try_finally_inv in Hrun
    as [[Hbody ->]|(s1 & o1 & o2 & Hbody & Hnr & Hfin & ->)].
  all: try (apply ext_inv in Hfin as [-> _]; simpl).
  all: unfold train_session in Hbody; inv_run.
  all: try solve [repeat first [assumption | apply Hhook | apply Hs | apply Hm]].
  all: match goal with
       | H : train_session_rest _ _ _ _ _ _ _ = _ |- _ =>
           apply (emits_train_session_rest w I (fun _ => True) Hhook
                    ltac:(done) true resume ss cs eq_refl) in H as [H _];
           [exact H|]
       end.
  all: simpl;
    repeat first [assumption | apply Hhook | apply Hs | apply Hm | apply Hw].
Qed.

(** X14: [train] assigns three attributes only, [summaries],
    [merged_summaries] and [summary_writer].  When the hooks leave the
    other seven alone ([inputs], [checkpoint_dir], [is_training], [layers],
    [eval_summaries], [global_step], [saver]), a run of [train] leaves them
    as they were, however it ends. *)
Theorem train_keeps_the_fixed_attributes (fuel : nat) (lr : pyval)
    (resume : bool) (ss cs : option Z) w s s' o :
  keeps_fixed_attributes w →
  train fuel lr resume ss cs w s = (s', o) →
  fixed_attributes (st_self s') = fixed_attributes (st_self s).
Proof.
  intros Hkeep Hrun.
  apply (train_keeps
           (fun o => fixed_attributes o = fixed_attributes (st_self s))
           fuel lr resume ss cs w s s' o); try done.
  intros tr o' Ho. by rewrite Hkeep.
Qed.

(** X14 at work: a run in the world [endless]. *)
Lemma train_keeps_the_fixed_attributes_witness :
  fixed_attributes
    (st_self (train 3 (PyFloat 1 (-3)) false (Some 2) (Some 3) endless
                (start sample_model)).1) =
  fixed_attributes (st_self (start sample_model)).
Proof.
  apply (train_keeps_the_fixed_attributes 3 (PyFloat 1 (-3)) false (Some 2)
           (Some 3) endless (start sample_model) _ _
           ltac:(by intros ? ?) (surjective_pairing _)).
Defined.



(** ** From the constructor to [train] *)

(** X9: a model that was only constructed cannot make a train step.
    [__init__] does not set [self.merged_summaries] ([train] does); so,
    unless a hook sets it, [_train_step] on the object a construction left
    calls the hook [_tofetch] and then raises, [AttributeError] when the
    hook returned, before any run of the session. *)
Theorem constructed_model_cannot_train_step (inputs_ : handle)
    (checkpoint_dir_ : path) (is_training_ reuse : bool) w history s0
    (sess : handle) s1 o :
  keeps_merged_summaries w →
  construct inputs_ checkpoint_dir_ is_training_ reuse w history =
    (s0, Normal tt) →
  _train_step sess w s0 = (s1, o) →
  st_trace s1 = st_trace s0 ++ [Hook_tofetch] ∧
  ∃ e, o = Raised e ∧
    ((w_hook w (st_trace s0 ++ [Hook_tofetch]) (st_self s0)).2 = Ret tt →
     e = AttributeError).
Proof.
  intros Hkeep Hc Hrun.
  assert (merged_summaries (st_self s0) = None) as Hnone.
  { unfold construct, __init__ in Hc. inv_run. by rewrite Hkeep. }
  unfold _train_step in Hrun. inv_run.
  all: try (rewrite Hkeep in *; congruence).
  all: split; [done|]; eexists; split; [reflexivity|]; intros; congruence.
Qed.

(** X9 at work: a model constructed in the world [endless]. *)
Lemma constructed_model_cannot_train_step_witness :
  st_trace (_train_step 6%nat endless
              (construct 0%nat "ckpt" true false endless []).1).1 =
    st_trace (construct 0%nat "ckpt" true false endless []).1 ++ [Hook_tofetch].
Proof.
  assert (construct 0%nat "ckpt" true false endless [] =
          ((construct 0%nat "ckpt" true false endless []).1, Normal tt))
    as Hc by (vm_compute; reflexivity).
  apply (constructed_model_cannot_train_step 0%nat "ckpt" true false endless
           [] _ 6%nat _ _ ltac:(by intros ? ?) Hc (surjective_pairing _)).
Defined.

(** X10: the directory given to the constructor is the one [train] works
    in.  When the hooks leave [self.checkpoint_dir] alone, a run of [train]
    on the object a construction left names no other directory in its calls
    (summary writer, [latest_checkpoint], [exists], [makedirs]), writes its
    checkpoints under the prefix [checkpoint_dir/model], and leaves the
    attribute as it was. *)
Theorem train_uses_the_constructor_directory (inputs_ : handle)
    (d : path) (is_training_ reuse : bool) w history s0
    (fuel : nat) (lr : pyval) (resume : bool) (ss cs : option Z) s' o :
  keeps_checkpoint_dir w →
  construct inputs_ d is_training_ reuse w history = (s0, Normal tt) →
  train fuel lr resume ss cs w s0 = (s', o) →
  checkpoint_dir (st_self s') = Some d ∧
  ∃ seg, st_trace s' = st_trace s0 ++ seg ∧
    (∀ c d', c ∈ seg → dir_of c = Some d' → d' = d) ∧
    (∀ sv sess p, SaverSave sv sess p ∈ seg → p = path_join d "model").
Proof.
  intros Hkeep Hc Hrun.
  assert (checkpoint_dir (st_self s0) = Some d) as Hd.
  { unfold construct, __init__ in Hc. inv_run. by rewrite Hkeep. }
  destruct (train_calls_dir _ _ _ _ _ _ _ _ _ _ Hkeep Hd Hrun)
    as (Hd' & seg & Htr & Hall & _).
  split; [done|]. exists seg. split; [done|].
  rewrite Forall_forall in Hall. split.
  - intros c d' Hin Hc'. destruct (Hall _ Hin) as (_ & _ & Hdir & _).
    symmetry. by apply Hdir.
  - intros sv sess p Hin. destruct (Hall _ Hin) as (_ & _ & _ & Hsave & _).
    by destruct (Hsave _ _ _ eq_refl) as (d' & <- & ->).
Qed.

(** X10 at work: a model constructed on [ckpt] and trained. *)
Lemma train_uses_the_constructor_directory_witness :
  checkpoint_dir
    (st_self (train 3 (PyFloat 1 (-3)) false (Some 2) (Some 3) endless
                (construct 0%nat "ckpt" true false endless []).1).1) =
  Some "ckpt".
Proof.
  assert (construct 0%nat "ckpt" true false endless [] =
          ((construct 0%nat "ckpt" true false endless []).1, Normal tt))
    as Hc by (vm_compute; reflexivity).
  apply (train_uses_the_constructor_directory 0%nat "ckpt" true false endless
           [] _ 3%nat (PyFloat 1 (-3)) false (Some 2) (Some 3) _ _
           ltac:(by intros ? ?) Hc (surjective_pairing _)).
Defined.

(** ** Frequencies of zero *)

Lemma positive_multiple_zero (step : Z) : ¬ positive_multiple step (Some 0).
Proof.
  intros (k & [= <-] & Hpos & Hdiv). apply Z.divide_0_l in Hdiv. lia.
Qed.

Lemma modulus_test_zero (step : Z) :
  0 < step → modulus_test step (Some 0) = Raised ZeroDivisionError.
Proof. intros H. unfold modulus_test. by rewrite bool_decide_eq_true_2. Qed.



(** ** Running [Config.__init__] again *)

(** X13: [Config.__init__] run on an object that has attributes already
    gives the defaults precedence: the result is the five defaults over the
    old attributes.  So it is idempotent, it resets each of the five fields
    to its default whatever the field held, and it leaves every other
    attribute as it was. *)
Theorem Config_init_overrides (self : gmap string pyval) :
  Config.__init__ self = Config.new ∪ self ∧
  Config.__init__ (Config.__init__ self) = Config.__init__ self ∧
  (∀ k v, Config.new !! k = Some v → Config.__init__ self !! k = Some v) ∧
  (∀ k, Config.new !! k = None → Config.__init__ self !! k = self !! k).
Proof.
  assert (∀ m : gmap string pyval, Config.__init__ m = Config.new ∪ m) as Hu.
  { intros m. unfold Config.new, Config.__init__.
    by rewrite <- !insert_union_l, (left_id_L ∅ (∪)). }
  split; [apply Hu|]. split; [|split].
  - rewrite !Hu. by rewrite (assoc_L (∪)), (idemp_L (∪)).
  - intros k v Hk. rewrite Hu. by apply lookup_union_Some_l.
  - intros k Hk. rewrite Hu. by apply lookup_union_r.
Qed.

(** X13 at work: [n_epochs] was 5 before [__init__] ran. *)
Lemma Config_init_overrides_witness :
  Config.__init__ (<["n_epochs" := PyInt 5]> ∅) !! "n_epochs" = Some PyNone.
Proof.
  apply (proj1 (proj2 (proj2
           (Config_init_overrides (<["n_epochs" := PyInt 5]> ∅))))).
  reflexivity.
Defined.
